(** * devserver.py: staging coordinator, cache clean-up, update override

    A shallow embedding of the request handlers of [devserver.py] and of the
    cache set-up of its [__main__] block.  Python values are modelled with
    the types closest to them: [kwargs] and [_downloader_dict] are finite
    maps, byte strings are [string], an uncaught exception is the [Raise]
    branch of [outcome].  The modules [downloader] and [autoupdate] are not
    part of the file; what the handlers need of them is modelled from the
    specification and marked as such. *)

From Stdlib Require Import ZArith Ascii.
From stdpp Require Import base option gmap sets list strings sorting pretty.

Local Open Scope Z_scope.
Local Open Scope nat_scope.

(** ** Python results *)

Module Py.

(** The exceptions that cross a handler: [DevServerError] (line 31),
    [cherrypy.HTTPError], [SystemExit] and whatever a collaborator raises. *)
Inductive exn : Type :=
| DevServerError (msg : string)
| HTTPError (status : Z) (msg : string)
| SystemExit (code : Z)
| Foreign (what : string).

Inductive outcome (A : Type) : Type :=
| Return (a : A)
| Raise (e : exn).

Arguments Return {A} a.
Arguments Raise {A} e.

#[global] Instance exn_eq_dec : EqDecision exn.
Proof. solve_decision. Defined.

#[global] Instance outcome_eq_dec `{EqDecision A} : EqDecision (outcome A).
Proof. solve_decision. Defined.

(** [not v] for the result of [kwargs.get(name)]: [None] and the empty
    string are false, any other string is true. *)
Definition falsy (v : option string) : bool :=
  match v with
  | None => true
  | Some EmptyString => true
  | Some (String _ _) => false
  end.

End Py.

Export Py.

(** ** The staging coordinator: [download] and [wait_for_status] *)

Module Coordinator.

(** Modelled from the spec: the state of a staging task of the missing
    [downloader] module, "state ∈ {Running, Succeeded, Failed}", a failure
    carrying its message. *)
Inductive task_state : Type :=
| Running
| Succeeded
| Failed (msg : string).

(** Modelled from the spec: a [downloader.Downloader] object.  It is [Idle]
    from its construction until [Download] has launched staging work for a
    key, and a [Task] for that key afterwards. *)
Inductive Downloader : Type :=
| Idle
| Task (key : string) (st : task_state).

#[global] Instance task_state_eq_dec : EqDecision task_state.
Proof. solve_decision. Defined.

#[global] Instance Downloader_eq_dec : EqDecision Downloader.
Proof. solve_decision. Defined.

(** The part of the process the two handlers read and write:
    [self._downloader_dict], whose values are [Downloader] objects or
    [None]; the objects themselves, named by their position in [heap], so
    that an object dropped from the dictionary still exists; and the builds
    staged under [updater.static_dir]. *)
Record state : Type := State {
  _downloader_dict : gmap string (option nat);
  heap : list Downloader;
  static_dir : gset string
}.

Definition init : state :=
  {| _downloader_dict := ∅; heap := []; static_dir := ∅ |}.

Definition set_dict (k : string) (v : option nat) (s : state) : state :=
  {| _downloader_dict := <[k := v]> (_downloader_dict s);
     heap := heap s;
     static_dir := static_dir s |}.

Definition set_object (d : nat) (o : Downloader) (s : state) : state :=
  {| _downloader_dict := _downloader_dict s;
     heap := <[d := o]> (heap s);
     static_dir := static_dir s |}.

(** [downloader.Downloader(updater.static_dir)]: a new object. *)
Definition new_Downloader (s : state) : nat * state :=
  (length (heap s),
   {| _downloader_dict := _downloader_dict s;
      heap := heap s ++ [Idle];
      static_dir := static_dir s |}).

(** Modelled from the spec: [Downloader.Download(archive_url,
    background=True)].  "Creates a Running task and launches staging
    asynchronously ...; returns immediately."  Whether the launch itself
    succeeds is the environment's choice [launch]: the value returned, or the
    exception raised before any work was started. *)
Definition Download (d : nat) (archive_url : string)
    (launch : outcome string) (s : state) : outcome string * state :=
  match launch with
  | Return obj => (Return obj, set_object d (Task archive_url Running) s)
  | Raise e => (Raise e, s)
  end.

(** Modelled from the spec: [Downloader.GetStatusOfBackgroundDownloads()],
    "blocks the caller until terminal, returns it".  [None] stands for a
    caller that is still blocked. *)
Definition GetStatusOfBackgroundDownloads (o : Downloader) : option string :=
  match o with
  | Task _ Succeeded => Some "Success"
  | Task _ (Failed msg) => Some msg
  | Task _ Running => None
  | Idle => None
  end.

(** Modelled from the spec: [Downloader.BuildStaged(archive_url,
    static_dir)], "checks for a materialized artifact under the cache root
    independent of in-memory tracking". *)
Definition BuildStaged (archive_url : string) (dir : gset string) : bool :=
  bool_decide (archive_url ∈ dir).

(** [DevServerRoot.download], lines 229-243. *)
Definition download (kwargs : gmap string string) (launch : outcome string)
    (s : state) : outcome string * state :=
  let '(downloader_instance, s) := new_Downloader s in
  let archive_url := kwargs !! "archive_url" in
  if falsy archive_url then
    (Raise (DevServerError "Didn't specify the archive_url in request"), s)
  else
    let archive_url := default EmptyString archive_url in
    let s := set_dict archive_url (Some downloader_instance) s in
    match Download downloader_instance archive_url launch s with
    | (Return return_obj, s) => (Return return_obj, s)
    | (Raise e, s) => (Raise e, set_dict archive_url None s)
    end.

(** [DevServerRoot.wait_for_status], lines 311-328.  The result is [None]
    when the call is blocked inside [GetStatusOfBackgroundDownloads]. *)
Definition wait_for_status (kwargs : gmap string string) (s : state)
    : option (outcome string * state) :=
  let archive_url := kwargs !! "archive_url" in
  if falsy archive_url then
    Some (Raise (DevServerError "Didn't specify the archive_url in request"), s)
  else
    let archive_url := default EmptyString archive_url in
    match default None (_downloader_dict s !! archive_url) with
    | Some downloader_instance =>
        match heap s !! downloader_instance
              ≫= GetStatusOfBackgroundDownloads with
        | Some status => Some (Return status, set_dict archive_url None s)
        | None => None
        end
    | None =>
        if BuildStaged archive_url (static_dir s) then
          Some (Return "Success", s)
        else
          Some (Raise (DevServerError
                  "No download for the given archive_url found."), s)
    end.

(** Modelled from the spec: the end of the background work of object [d],
    "BlobStore.Fetch(key) -> (path, error): performs the network transfer,
    materializes the artifact under the cache root".  [None] is a completed
    fetch, [Some msg] a failed one. *)
Definition background_done (d : nat) (error : option string) (s : state)
    : state :=
  match heap s !! d with
  | Some (Task key Running) =>
      match error with
      | None =>
          {| _downloader_dict := _downloader_dict s;
             heap := <[d := Task key Succeeded]> (heap s);
             static_dir := {[key]} ∪ static_dir s |}
      | Some msg => set_object d (Task key (Failed msg)) s
      end
  | _ => s
  end.

(** What happens to the server, one event at a time. *)
Inductive event : Type :=
| Call_download (kwargs : gmap string string) (launch : outcome string)
| Call_wait_for_status (kwargs : gmap string string)
| Background_done (d : nat) (error : option string).

Definition step (s : state) (ev : event) : state :=
  match ev with
  | Call_download kwargs launch => (download kwargs launch s).2
  | Call_wait_for_status kwargs =>
      match wait_for_status kwargs s with
      | Some (_, s') => s'
      | None => s
      end
  | Background_done d error => background_done d error s
  end.

Definition run (evs : list event) (s : state) : state :=
  foldl step s evs.

(** The request [?archive_url=key]. *)
Definition request (key : string) : gmap string string :=
  {[ "archive_url" := key ]}.

(** The object tracked for a key: a [None] entry tracks nothing. *)
Definition tracked (key : string) (s : state) : option nat :=
  default None (_downloader_dict s !! key).

(** The objects that are Running tasks of a key, tracked or not. *)
Definition running (key : string) (s : state) : list nat :=
  filter (λ d, heap s !! d = Some (Task key Running)) (seq 0 (length (heap s))).

(** Those of them the dictionary tracks. *)
Definition tracked_running (key : string) (s : state) : list nat :=
  filter (λ d, tracked key s = Some d) (running key s).

(** Single flight, as invariant I1 and property P1 word it: no key has two
    Running tasks at the same time. *)
Definition single_flight (s : state) : Prop :=
  ∀ key, length (running key s) ≤ 1.

(** Every object the dictionary tracks for a key exists and is a task of
    that key. *)
Definition tracks_tasks (s : state) : Prop :=
  ∀ key d, tracked key s = Some d → ∃ st, heap s !! d = Some (Task key st).

(** What the caller of an event gets back: [None] for a blocked call and
    for the background work, which has no caller. *)
Definition output (s : state) (ev : event) : option (outcome string) :=
  match ev with
  | Call_download kwargs launch => Some (download kwargs launch s).1
  | Call_wait_for_status kwargs => fst <$> wait_for_status kwargs s
  | Background_done _ _ => None
  end.

Fixpoint outputs (evs : list event) (s : state)
    : list (option (outcome string)) :=
  match evs with
  | [] => []
  | ev :: evs => output s ev :: outputs evs (step s ev)
  end.

Definition downloads (key : string) (ev : event) : Prop :=
  match ev with
  | Call_download kwargs _ => kwargs !! "archive_url" = Some key
  | _ => False
  end.

#[global] Instance downloads_dec key ev : Decision (downloads key ev).
Proof. destruct ev; simpl; apply _. Defined.

(** The same process with the key deleted from the dictionary. *)
Definition forget (key : string) (s : state) : state :=
  {| _downloader_dict := delete key (_downloader_dict s);
     heap := heap s;
     static_dir := static_dir s |}.

(** Two processes that differ at most in keys that one maps to [None] and
    the other does not have. *)
Definition alike (s1 s2 : state) : Prop :=
  (∀ key, tracked key s1 = tracked key s2)
  ∧ heap s1 = heap s2
  ∧ static_dir s1 = static_dir s2.

(** The answers of [wait_for_status] for a key nothing is tracked for. *)
Definition cache_answer (key : string) (s : state) : outcome string :=
  if BuildStaged key (static_dir s) then Return "Success"
  else Raise (DevServerError "No download for the given archive_url found.").

End Coordinator.

(** ** The cache clean-up of [__main__], lines 480-501 *)

Module Cache.

Definition CACHED_ENTRIES : nat := 12.

(** An entry of the cache directory: its name, its modification time and
    whether [rm -rf] is able to remove it. *)
Record entry : Type := Entry {
  name : string;
  mtime : Z;
  removable : bool
}.

#[global] Instance entry_eq_dec : EqDecision entry.
Proof. solve_decision. Defined.

(** *** The three programs of the pipeline [ls -tr | head --lines=-N | xargs rm -rf] *)

(** [ls] without [-a] leaves out the names that start with a dot. *)
Definition hidden (n : string) : bool :=
  match n with
  | String "."%char _ => true
  | _ => false
  end.

(** The order of [ls -tr]: [-t] lists the newest first and equal times by
    name, [-r] reverses all of it. *)
Definition ls_tr_before (a b : entry) : Prop :=
  (mtime a < mtime b)%Z ∨ (mtime a = mtime b ∧ String.le (name b) (name a)).

#[global] Instance ls_tr_before_dec : RelDecision ls_tr_before.
Proof. intros a b. unfold ls_tr_before. apply _. Defined.

Definition ls_tr (dir : list entry) : list string :=
  name <$> merge_sort ls_tr_before (filter (λ e, ¬ hidden (name e)) dir).

Definition newline : ascii := "010"%char.

(** What a program prints: every line followed by a newline. *)
Fixpoint write_lines (ls : list string) : string :=
  match ls with
  | [] => EmptyString
  | l :: ls => l +:+ String newline (write_lines ls)
  end.

(** What the next program reads: the text cut at its newlines. *)
Fixpoint read_lines (text : string) : list string :=
  match text with
  | EmptyString => []
  | String c text =>
      if decide (c = newline) then EmptyString :: read_lines text
      else match read_lines text with
           | [] => [String c EmptyString]
           | l :: ls => String c l :: ls
           end
  end.

(** [head --lines=-n]: all but the last [n] lines. *)
Definition head_all_but_last (n : nat) (text : string) : string :=
  let ls := read_lines text in
  write_lines (take (length ls - n) ls).

(** [xargs] cuts its input into arguments at blanks and newlines; quotes
    and backslashes protect the characters after them.  [p] is the argument
    read so far. *)
Inductive xargs_state : Type :=
| Space
| Norm
| Quote (q : ascii)
| Backslash.

Definition is_blank (c : ascii) : bool :=
  bool_decide (c = " "%char ∨ c = "009"%char).

Definition is_quote (c : ascii) : bool :=
  bool_decide (c = "'"%char ∨ c = "034"%char).

Definition push_arg (a : string) (r : list string * bool)
    : list string * bool :=
  (a :: r.1, r.2).

(** The arguments read, and [false] when the input ends inside a quote
    ([xargs] then still runs the command on what it has, and fails). *)
Fixpoint xargs_read (st : xargs_state) (p : string) (input : string)
    : list string * bool :=
  match input with
  | EmptyString =>
      match p, st with
      | EmptyString, _ => ([], true)
      | _, Quote _ => ([], false)
      | _, _ => ([p], true)
      end
  | String c rest =>
      match (match st with
             | Space => if Ascii.is_space c then Space else Norm
             | _ => st
             end) with
      | Space => xargs_read Space EmptyString rest
      | Norm =>
          if decide (c = newline) then push_arg p (xargs_read Space EmptyString rest)
          else if is_blank c then push_arg p (xargs_read Space EmptyString rest)
          else if decide (c = "\"%char) then xargs_read Backslash p rest
          else if is_quote c then xargs_read (Quote c) p rest
          else xargs_read Norm (p +:+ String c EmptyString) rest
      | Quote q =>
          if decide (c = newline) then ([], false)
          else if decide (c = q) then xargs_read Norm p rest
          else xargs_read (Quote q) (p +:+ String c EmptyString) rest
      | Backslash => xargs_read Norm (p +:+ String c EmptyString) rest
      end
  end.

(** [rm -rf]: the names removed, in order; whether every operand could be
    dealt with; what is left of the directory.  A missing operand is not an
    error under [-f]; [.] and [..] are refused. *)
Record rm_result : Type := Rm {
  deleted : list string;
  rm_ok : bool;
  remaining : list entry
}.

Definition rm_one (r : rm_result) (arg : string) : rm_result :=
  if bool_decide (arg = "." ∨ arg = "..") then
    {| deleted := deleted r; rm_ok := false; remaining := remaining r |}
  else
    match list_find (λ e, name e = arg) (remaining r) with
    | Some (_, e) =>
        if removable e then
          {| deleted := deleted r ++ [arg];
             rm_ok := rm_ok r;
             remaining := filter (λ e, name e ≠ arg) (remaining r) |}
        else
          {| deleted := deleted r; rm_ok := false; remaining := remaining r |}
    | None => r
    end.

Definition rm_rf (args : list string) (dir : list entry) : rm_result :=
  foldl rm_one {| deleted := []; rm_ok := true; remaining := dir |} args.

(** A word of the command line that starts with a dash, and is more than
    the dash, is read by [rm] as options, not as an operand. *)
Definition option_like (arg : string) : bool :=
  match arg with
  | String "-"%char (String _ _) => true
  | _ => false
  end.

(** [rm -rf] on words that come from elsewhere, as those [xargs] hands
    over.  Without an option among them they are the operands.  With one,
    what [rm] makes of the words depends on its option table ([-rf], [-v]
    and [--] are accepted, an unknown letter is refused before anything is
    removed); that table is [rm_given_options], taken as it is. *)
Definition rm_rf_words (rm_given_options : list string → list entry → rm_result)
    (args : list string) (dir : list entry) : rm_result :=
  if existsb option_like args then rm_given_options args dir
  else rm_rf args dir.

(** *** The two commands given to [os.system] *)

Inductive command : Type :=
| ClearAll                       (* rm -rf cache_dir/* *)
| EvictExcess (limit : nat).     (* cd cache_dir; ls -tr | head --lines=-limit | xargs rm -rf *)

(** The command line, as lines 486 and 494 format it: the path goes into
    it as it is, without quotes. *)
Definition cmd_text (cache_dir : string) (c : command) : string :=
  match c with
  | ClearAll => "rm -rf " +:+ cache_dir +:+ "/*"
  | EvictExcess limit =>
      "cd " +:+ cache_dir +:+ "; ls -tr | head --lines=-" +:+ pretty limit
        +:+ " | xargs rm -rf"
  end.

(** A character the shell keeps as it is inside a word: a letter, a digit
    or one of [/ . _ - + , : @]. *)
Definition path_char (c : ascii) : bool :=
  let n := nat_of_ascii c in
  (48 <=? n) && (n <=? 57) || (65 <=? n) && (n <=? 90)
  || (97 <=? n) && (n <=? 122)
  || bool_decide (c ∈ ["/"; "."; "_"; "-"; "+"; ","; ":"; "@"]%char).

Fixpoint all_path_chars (path : string) : bool :=
  match path with
  | EmptyString => true
  | String c path => path_char c && all_path_chars path
  end.

(** A path that the shell reads as the one word it is: absolute, and
    without a blank, a quote, a pattern or any other character the shell
    acts on. *)
Definition shell_word (path : string) : bool :=
  match path with
  | String "/"%char rest => all_path_chars rest
  | _ => false
  end.

(** What is at the cache path: nothing, a directory the process can enter,
    list and write to, with its entries, or anything else (a file, a
    directory closed to the process). *)
Inductive at_path : Type :=
| Missing
| Dir (content : list entry)
| Other.

Record run_result : Type := Ran {
  status : Z;
  removed : list string;
  after : at_path
}.

(** The machine the commands run on.  [sh_otherwise] is what a command
    line does that is not followed here: one whose path is not a single
    plain word, or does not lead to a directory; [cd] then fails or goes
    elsewhere and the rest of the line acts on another directory. *)
Record machine : Type := Machine {
  at_cache : at_path;
  rm_given_options : list string → list entry → rm_result;
  sh_otherwise : string → run_result
}.

(** The shell expands [cache_dir/*] to the names that are not hidden, in
    the order of their bytes, and leaves the pattern as it is when there is
    none.  The words it makes start with the path of the directory, so none
    is read as an option; the names stand for them here. *)
Definition glob_star (dir : list entry) : list string :=
  match merge_sort String.le (filter (λ n, ¬ hidden n) (name <$> dir)) with
  | [] => ["*"]
  | names => names
  end.

(** What [xargs] reads from [ls -tr | head --lines=-limit]: the arguments,
    and whether it could read them all. *)
Definition xargs_args (limit : nat) (dir : list entry) : list string * bool :=
  xargs_read Space EmptyString
    (head_all_but_last limit (write_lines (ls_tr dir))).

(** The run of [rm -rf] inside each command, on the entries [dir] of the
    cache directory. *)
Definition removal (m : machine) (c : command) (dir : list entry)
    : rm_result :=
  match c with
  | ClearAll => rm_rf (glob_star dir) dir
  | EvictExcess limit =>
      rm_rf_words (rm_given_options m) (xargs_args limit dir).1 dir
  end.

(** The status of a pipeline is that of its last program: [xargs] exits
    with 1 on an unmatched quote and with 123 when [rm] failed. *)
Definition exit_code (m : machine) (c : command) (dir : list entry) : Z :=
  match c with
  | ClearAll => if rm_ok (removal m c dir) then 0 else 1
  | EvictExcess limit =>
      if (xargs_args limit dir).2 then
        if rm_ok (removal m c dir) then 0 else 123
      else 1
  end%Z.

(** [os.system(cmd)] for the command made from [cache_dir]; its value is
    the exit code in the high byte of a 16-bit number.  The command is
    followed when the path is a plain word that leads to a directory. *)
Definition os_system (m : machine) (cache_dir : string) (c : command)
    : run_result :=
  match at_cache m with
  | Dir dir =>
      if shell_word cache_dir then
        {| status := 256 * exit_code m c dir;
           removed := deleted (removal m c dir);
           after := Dir (remaining (removal m c dir)) |}%Z
      else sh_otherwise m (cmd_text cache_dir c)
  | _ => sh_otherwise m (cmd_text cache_dir c)
  end.

(** *** Lines 483-501 *)

(** What the block does to the outside, in order. *)
Inductive effect : Type :=
| System (c : command)
| Log (msg : string)
| Makedirs.

Record setup_result : Type := Setup {
  effects : list effect;
  cache : at_path;
  result : outcome unit
}.

(** [os.path.exists(cache_dir)] is false when nothing is at the path.
    [Raise (SystemExit 1)] is [sys.exit(1)]; [Return ()] goes on to line
    503 and, in the end, to [cherrypy.quickstart]. *)
Definition cache_setup (m : machine) (cache_dir : string)
    (clear_cache : bool) : setup_result :=
  match at_cache m with
  | Missing =>
      {| effects := [Makedirs]; cache := Dir []; result := Return () |}
  | _ =>
      if clear_cache then
        let cmd := ClearAll in
        let r := os_system m cache_dir cmd in
        if decide (status r ≠ 0%Z) then
          {| effects := [System cmd;
                         Log ("Failed to clear the cache with "
                              +:+ cmd_text cache_dir cmd)];
             cache := after r;
             result := Raise (SystemExit 1) |}
        else
          {| effects := [System cmd]; cache := after r; result := Return () |}
      else
        let cmd := EvictExcess CACHED_ENTRIES in
        let r := os_system m cache_dir cmd in
        if decide (status r ≠ 0%Z) then
          {| effects := [System cmd;
                         Log ("Failed to clean up old delta cache files with "
                              +:+ cmd_text cache_dir cmd)];
             cache := after r;
             result := Raise (SystemExit 1) |}
        else
          {| effects := [System cmd]; cache := after r; result := Return () |}
  end.

(** *** Vocabulary of the properties *)

(** A name that [ls] lists, that [xargs] passes on as it is and that [rm]
    reads as an operand: not empty, no leading dot or dash, no white space,
    quote or backslash. *)
Definition plain_char (c : ascii) : bool :=
  negb (Ascii.is_space c) && negb (is_quote c)
  && negb (bool_decide (c = "\"%char)).

Fixpoint all_plain (n : string) : bool :=
  match n with
  | EmptyString => true
  | String c n => plain_char c && all_plain n
  end.

Definition plain (n : string) : Prop :=
  n ≠ EmptyString ∧ hidden n = false ∧ option_like n = false
  ∧ all_plain n = true.

#[global] Instance plain_dec n : Decision (plain n).
Proof. unfold plain. apply _. Defined.

(** A name that [ls] lists on a line of its own. *)
Definition listed_on_a_line (n : string) : Prop :=
  hidden n = false ∧ newline ∉ String.list_ascii_of_string n.

#[global] Instance listed_on_a_line_dec n : Decision (listed_on_a_line n).
Proof. unfold listed_on_a_line. apply _. Defined.

(** An entry that at least [limit] entries of the directory are newer
    than: one that is not among the [limit] most recently modified. *)
Definition outdated (limit : nat) (dir : list entry) (e : entry) : Prop :=
  limit ≤ length (filter (λ e', (mtime e < mtime e')%Z) dir).

#[global] Instance outdated_dec limit dir e : Decision (outdated limit dir e).
Proof. unfold outdated. apply _. Defined.

(** [kept] is what is left of [dir] when only its [limit] most recently
    modified entries stay. *)
Definition newest_kept (limit : nat) (dir kept : list entry) : Prop :=
  length kept = limit
  ∧ kept ⊆ dir
  ∧ ∀ e e', e ∈ kept → e' ∈ dir → e' ∉ kept → (mtime e' < mtime e)%Z.

(** What the start-up pass is to achieve on the cache directory, as
    invariant I3 and property P3 word it. *)
Definition evicts_to_limit (m : machine) (cache_dir : string) : Prop :=
  ∀ dir, at_cache m = Dir dir →
    let r := os_system m cache_dir (EvictExcess CACHED_ENTRIES) in
    (CACHED_ENTRIES < length dir →
       ∃ kept, after r = Dir kept ∧ newest_kept CACHED_ENTRIES dir kept)
    ∧ (length dir ≤ CACHED_ENTRIES → after r = Dir dir).

(** The machine once [a] is at the cache path. *)
Definition with_cache (a : at_path) (m : machine) : machine :=
  {| at_cache := a;
     rm_given_options := rm_given_options m;
     sh_otherwise := sh_otherwise m |}.

Definition is_System (e : effect) : bool :=
  match e with
  | System _ => true
  | _ => false
  end.

End Cache.

(** ** [ApiRoot.setnextupdate], lines 178-185 *)

Module Api.

(** [str.strip()] removes the characters space, tab, newline, vertical tab,
    form feed and carriage return from both ends. *)
Fixpoint lstrip (s : string) : string :=
  match s with
  | EmptyString => EmptyString
  | String c s' => if Ascii.is_space c then lstrip s' else s
  end.

Fixpoint rstrip (s : string) : string :=
  match s with
  | EmptyString => EmptyString
  | String c s' =>
      match rstrip s' with
      | EmptyString => if Ascii.is_space c then EmptyString
                       else String c EmptyString
      | r => String c r
      end
  end.

Definition strip (s : string) : string := lstrip (rstrip s).

Fixpoint whitespace_only (s : string) : bool :=
  match s with
  | EmptyString => true
  | String c s' => Ascii.is_space c && whitespace_only s'
  end.

Fixpoint last_char (s : string) : option ascii :=
  match s with
  | EmptyString => None
  | String c EmptyString => Some c
  | String _ s' => last_char s'
  end.

Definition first_char (s : string) : option ascii :=
  match s with
  | EmptyString => None
  | String c _ => Some c
  end.

(** What the handler reads of [cherrypy.request]: the number that
    [int(headers['Content-Length'])] yields ([None] when the header is missing
    or is no number, which ends the handler in a [KeyError] or [ValueError])
    and the body behind [rfile]. *)
Record request : Type := Request {
  Content_Length : option nat;
  rfile : string
}.

(** [rfile.read(n)]: the first [n] bytes of the body, fewer when it is
    shorter. *)
Definition read (n : nat) (body : string) : string :=
  String.substring 0 n body.

(** The object behind the global [updater], as far as this handler calls
    it. *)
Class Updater (R : Type) : Type := {
  HandleSetUpdatePing : string → string → R → outcome unit * R
}.

Definition setnextupdate `{Updater R} (ip : string) (req : request)
    (updater : R) : outcome unit * R :=
  match Content_Length req with
  | None => (Raise (Foreign "Content-Length"), updater)
  | Some body_length =>
      let label := read body_length (rfile req) in
      let no_label := (Raise (HTTPError 400 "No label provided."), updater) in
      match label with
      | String _ _ =>
          let label := strip label in
          match label with
          | String _ _ => HandleSetUpdatePing ip label updater
          | EmptyString => no_label
          end
      | EmptyString => no_label
      end
  end.

(** Modelled from the spec: an entry of the event log of a host,
    "{timestamp, event-type, event-status, reported-version}". *)
Record log_entry : Type := LogEntry {
  timestamp : Z;
  event_type : Z;
  event_status : Z;
  reported_version : string
}.

(** Modelled from the spec: the record the registry of [autoupdate] keeps
    per host, "event-log ..., forced-label: optional string"; the host is
    [OverridePending] when [forced_label] is set. *)
Record HostRecord : Type := Host {
  event_log : list log_entry;
  forced_label : option string
}.

(** Modelled from the spec: [Autoupdate.HandleSetUpdatePing], the registry
    side of SetOverride: "creates the record if absent; sets forced-label and
    state to OverridePending". *)
Definition set_forced_label (ip label : string)
    (hosts : gmap string HostRecord) : gmap string HostRecord :=
  let log := match hosts !! ip with
             | Some h => event_log h
             | None => []
             end in
  <[ip := {| event_log := log; forced_label := Some label |}]> hosts.

#[global] Instance HostPingRegistry : Updater (gmap string HostRecord) := {
  HandleSetUpdatePing ip label hosts := (Return (), set_forced_label ip label hosts)
}.

(** The pending override of a host. *)
Definition pending (ip : string) (hosts : gmap string HostRecord)
    : option string :=
  hosts !! ip ≫= forced_label.

End Api.

(** ** [DevServerRoot.symbolicate_dump], lines 280-298 *)

Module Symbolicate.

Definition chunk : nat := Z.to_nat 8192.

Fixpoint skip (n : nat) (s : string) : string :=
  match n, s with
  | S n', String _ s' => skip n' s'
  | _, _ => s
  end.

(** The loop of lines 282-286: [file] is what is left to read of the
    upload, [local] what has been written to the temporary file. *)
Fixpoint copy_loop (fuel : nat) (file local : string) : option string :=
  match fuel with
  | 0 => None
  | S fuel =>
      match String.substring 0 chunk file with
      | EmptyString => Some local
      | data => copy_loop fuel (skip chunk file) (local +:+ data)
      end
  end.

(** What [communicate()] and [returncode] give once the process has
    ended. *)
Record exited : Type := Exited {
  stdout : string;
  stderr : string;
  returncode : Z
}.

Section symbolicate_dump.

(** The external program [minidump_stackwalk], run on a file with the given
    content and on the directory of symbols. *)
Variable minidump_stackwalk : string → string → exited.

Variable static_dir : string.

Definition symbolicate_dump (minidump : string) : option (outcome string) :=
  local ← copy_loop (S (String.length minidump)) minidump EmptyString;
  let stackwalk := minidump_stackwalk local (static_dir +:+ "/debug/breakpad") in
  let to_return := stdout stackwalk in
  let error_text := stderr stackwalk in
  if decide (returncode stackwalk ≠ 0%Z) then
    Some (Raise (DevServerError
            ("Can't generate stack trace: " +:+ error_text +:+ " (rc="
             +:+ pretty (returncode stackwalk) +:+ ")")))
  else Some (Return to_return).

End symbolicate_dump.

End Symbolicate.

(** ** Concrete inputs *)

Module Examples.

Import Coordinator.

Definition build_A : string := "gs://bucket/build-A".

(** One staging request for the build. *)
Definition staged_once : list event :=
  [Call_download (request build_A) (Return "Success")].

(** Two staging requests for it, the first still at work. *)
Definition staged_twice : list event :=
  [Call_download (request build_A) (Return "Success");
   Call_download (request build_A) (Return "Success")].

(** One staging request, and its background work done. *)
Definition fetched : list event :=
  [Call_download (request build_A) (Return "Success");
   Background_done 0 None].

Import Cache.

(** Thirteen cached updates, [u01] the oldest. *)
Definition updates : list entry :=
  [ Entry "u07" 107 true; Entry "u01" 101 true; Entry "u13" 113 true;
    Entry "u02" 102 true; Entry "u12" 112 true; Entry "u03" 103 true;
    Entry "u11" 111 true; Entry "u04" 104 true; Entry "u10" 110 true;
    Entry "u05" 105 true; Entry "u09" 109 true; Entry "u06" 106 true;
    Entry "u08" 108 true ].

(** The same with the oldest one under a name that starts with a dot. *)
Definition updates_with_dot_name : list entry :=
  [ Entry "u07" 107 true; Entry ".u01" 101 true; Entry "u13" 113 true;
    Entry "u02" 102 true; Entry "u12" 112 true; Entry "u03" 103 true;
    Entry "u11" 111 true; Entry "u04" 104 true; Entry "u10" 110 true;
    Entry "u05" 105 true; Entry "u09" 109 true; Entry "u06" 106 true;
    Entry "u08" 108 true ].

(** The same with the oldest one impossible to remove. *)
Definition updates_with_stuck_entry : list entry :=
  [ Entry "u07" 107 true; Entry "u01" 101 false; Entry "u13" 113 true;
    Entry "u02" 102 true; Entry "u12" 112 true; Entry "u03" 103 true;
    Entry "u11" 111 true; Entry "u04" 104 true; Entry "u10" 110 true;
    Entry "u05" 105 true; Entry "u09" 109 true; Entry "u06" 106 true;
    Entry "u08" 108 true ].

(** The same with a blank in the name of the oldest one. *)
Definition updates_with_blank_name : list entry :=
  [ Entry "u07" 107 true; Entry "u 01" 101 true; Entry "u13" 113 true;
    Entry "u02" 102 true; Entry "u12" 112 true; Entry "u03" 103 true;
    Entry "u11" 111 true; Entry "u04" 104 true; Entry "u10" 110 true;
    Entry "u05" 105 true; Entry "u09" 109 true; Entry "u06" 106 true;
    Entry "u08" 108 true ].

(** A machine with [dir] as its cache directory, an [rm] that refuses
    every option, and a shell that finds no command on the lines that are
    not followed. *)
Definition machine_with (dir : list entry) : machine :=
  {| at_cache := Dir dir;
     rm_given_options := λ _ d,
       {| deleted := []; rm_ok := false; remaining := d |};
     sh_otherwise := λ _,
       {| status := 32512; removed := []; after := Dir dir |} |}.

Import Api.

(** The requests of scenario B, and a registry with an override pending. *)
Definition padded_label : request :=
  {| Content_Length := Some 10; rfile := "  R1-100  " |}.

Definition blank_label : request :=
  {| Content_Length := Some 3; rfile := "   " |}.

Definition one_override : gmap string HostRecord :=
  {[ "10.0.0.5" := {| event_log := []; forced_label := Some "R1-100" |} ]}.

Import Symbolicate.

(** A [minidump_stackwalk] that finds no symbols. *)
Definition no_symbols (dump symbols : string) : exited :=
  {| stdout := EmptyString; stderr := "no symbols"; returncode := 1 |}.

End Examples.

(** ** The other handlers of [DevServerRoot] *)

Module Handlers.

(** [DevServerRoot.stage_debug], lines 259-263.  [SymbolDownload] is
    [downloader.SymbolDownloader(updater.static_dir).Download], which the
    handler waits for. *)
Definition stage_debug (SymbolDownload : string → outcome string)
    (kwargs : gmap string string) : outcome string :=
  let archive_url := kwargs !! "archive_url" in
  if falsy archive_url then
    Raise (DevServerError "Didn't specify the archive_url in request")
  else
    SymbolDownload (default EmptyString archive_url).

(** [DevServerRoot.build], lines 208-211.  [self._builder] is [None] or
    the [builder.Builder] object made at the first call; objects are named
    by the order in which they were made, [made] counting them. *)
Record builders : Type := Builders {
  _builder : option nat;
  made : nat
}.

Definition no_builder : builders := {| _builder := None; made := 0 |}.

(** The result, the object [Build] was called on, and the new state. *)
Definition build (Build : nat → string → string → outcome string)
    (board pkg : string) (self : builders)
    : outcome string * nat * builders :=
  let self :=
    match _builder self with
    | None => {| _builder := Some (made self); made := S (made self) |}
    | Some _ => self
    end in
  let b := default 0 (_builder self) in
  (Build b board pkg, b, self).

(** A number of calls in a row; the objects [Build] was called on. *)
Fixpoint builds (Build : nat → string → string → outcome string)
    (calls : list (string * string)) (self : builders)
    : list nat * builders :=
  match calls with
  | [] => ([], self)
  | (board, pkg) :: calls =>
      let '(_, b, self) := build Build board pkg self in
      let '(bs, self) := builds Build calls self in
      (b :: bs, self)
  end.

End Handlers.

(** ** The help pages: [_LeadingWhiteSpaceCount], [_PrintDocStringAsHTML] *)

Module Html.

(** Lines 44-48: the length of what [re.match('^\s+', string)] matches,
    the longest run of white space the string starts with; 0 without a
    match. *)
Fixpoint _LeadingWhiteSpaceCount (string : string) : nat :=
  match string with
  | EmptyString => 0
  | String c rest =>
      if Ascii.is_space c then S (_LeadingWhiteSpaceCount rest) else 0
  end.

Definition LF : ascii := "010"%char.
Definition CR : ascii := "013"%char.

(** [str.splitlines()]: the lines end at a line feed, at a carriage return
    or at the two in a row; the ends are not part of the lines. *)
Fixpoint splitlines (s : string) : list string :=
  match s with
  | EmptyString => []
  | String c rest =>
      if decide (c = LF) then EmptyString :: splitlines rest
      else if decide (c = CR) then
        EmptyString :: match rest with
                       | String c' rest' =>
                           if decide (c' = LF) then splitlines rest'
                           else splitlines rest
                       | EmptyString => []
                       end
      else match splitlines rest with
           | [] => [String c EmptyString]
           | l :: ls => String c l :: ls
           end
  end.

(** [s * n] *)
Fixpoint times (s : string) (n : nat) : string :=
  match n with
  | 0 => EmptyString
  | S n => s +:+ times s n
  end.

(** [sep.join(ls)] *)
Fixpoint join (sep : string) (ls : list string) : string :=
  match ls with
  | [] => EmptyString
  | [l] => l
  | l :: ls => l +:+ sep +:+ join sep ls
  end.

(** The body of the loop, lines 63-67. *)
Definition html_line (line : string) : string :=
  let leading_space := _LeadingWhiteSpaceCount line in
  let line := if decide (0 < leading_space)
              then times "&nbsp;" leading_space +:+ line
              else line in
  "<BR>" +:+ line.

(** Lines 61-69, on [func.__doc__]. *)
Definition _PrintDocStringAsHTML (doc : string) : string :=
  join (String LF EmptyString) (html_line <$> splitlines doc).

(** No line feed and no carriage return in the string. *)
Fixpoint one_line (s : string) : bool :=
  match s with
  | EmptyString => true
  | String c rest =>
      negb (bool_decide (c = LF)) && negb (bool_decide (c = CR))
      && one_line rest
  end.

End Html.

(** ** [_PrepareToServeUpdatesOnly], lines 119-135 *)

Module Archive.

(** What [static_dir/archive] is when there is something under that name:
    a symbolic link, or a file or directory. *)
Inductive node : Type :=
| Symlink (target : string)
| NoLink.

#[global] Instance node_eq_dec : EqDecision node.
Proof. solve_decision. Defined.

(** The calls that change the file system. *)
Inductive fs_call : Type :=
| unlink
| symlink (target : string).

#[global] Instance fs_call_eq_dec : EqDecision fs_call.
Proof. solve_decision. Defined.

(** The text between double quotes. *)
Definition quoted (s : string) : string :=
  String "034"%char (s +:+ String "034"%char EmptyString).

(** What the function does to the outside, in order: a message to the
    log, or a call that changes the file system. *)
Inductive action : Type :=
| say (msg : string)
| call (c : fs_call).

Record prepared : Type := Prepared {
  did : list action;
  archive : option node;
  ended : outcome unit
}.

Definition logged (p : prepared) : list string :=
  omap (λ a, match a with say msg => Some msg | call _ => None end) (did p).

Definition calls (p : prepared) : list fs_call :=
  omap (λ a, match a with call c => Some c | say _ => None end) (did p).

(** [image_exists] is [os.path.exists(image_dir)], [link] what is at
    [static_dir/archive].  A failed [assert] is an [AssertionError] and
    [os.readlink] on something that is no link an [OSError]; [unlink] and
    [symlink] are taken to succeed. *)
Definition _PrepareToServeUpdatesOnly (image_dir : string)
    (image_exists : bool) (link : option node) : prepared :=
  if negb image_exists then
    {| did := []; archive := link;
       ended := Raise (Foreign (image_dir +:+ " must exist.")) |}
  else
    let log1 := "Preparing autoupdate for " +:+ quoted "serve updates only"
                +:+ " mode." in
    let log3 := "archive dir: " +:+ image_dir
                +:+ " ready to be used to serve images." in
    match link with
    | Some (Symlink target) =>
        if decide (image_dir ≠ target) then
          {| did := [say log1;
                     say ("removing stale symlink to " +:+ image_dir);
                     call unlink; call (symlink image_dir); say log3];
             archive := Some (Symlink image_dir);
             ended := Return () |}
        else
          {| did := [say log1; say log3]; archive := link;
             ended := Return () |}
    | Some NoLink =>
        {| did := [say log1]; archive := link;
           ended := Raise (Foreign "OSError") |}
    | None =>
        {| did := [say log1; call (symlink image_dir); say log3];
           archive := Some (Symlink image_dir);
           ended := Return () |}
    end.

End Archive.

(** ** The [__main__] block, lines 452-546 *)

Module Main.

Import Cache Archive.

(** The options the block and the port of [_GetConfig] read; the others
    are handed on to [Autoupdate].  [port] is [None] for the default, the
    number 8080, and the text given with [--port] otherwise. *)
Record options : Type := Options {
  archive_dir : option string;
  clear_cache : bool;
  client_prefix_deprecated : string;
  data_dir : string;
  exit : bool;
  factory_config : option string;
  log_dir : option string;
  port : option string;
  pregenerate_update : bool;
  validate_factory_config : bool
}.

(** What the block finds outside: the directory of the script, the
    functions of [os.path] that look at the file system, what is at
    [static/archive], the machine as the commands on a cache path find it,
    the number [int] reads from a text ([None] for a [ValueError]), and
    how the two calls on the updater end, which may depend on the
    [copy_to_static_root] it was made with. *)
Record world : Type := World {
  devserver_dir : string;
  realpath : string → string;
  isdir : string → bool;
  path_exists : string → bool;
  archive_link : option node;
  machine_at : string → machine;
  int : string → option Z;
  import_factory_config : bool → outcome unit;
  pregenerate : bool → outcome bool
}.

(** What the block does to the outside, in order. *)
Inductive effect : Type :=
| mkdir_p (path : string)
| fs (c : fs_call)
| cherrypy_log (msg : string)
| on_cache (e : Cache.effect)
| parser_error (msg : string)
| Autoupdate (static_dir : string) (serve_only copy_to_static_root : bool)
| ImportFactoryConfigFile (path : string) (validate : bool)
| PreGenerateUpdate
| quickstart (socket_port : Z).

#[global] Instance command_eq_dec : EqDecision command.
Proof. solve_decision. Defined.

#[global] Instance cache_effect_eq_dec : EqDecision Cache.effect.
Proof. solve_decision. Defined.

#[global] Instance effect_eq_dec : EqDecision effect.
Proof. solve_decision. Defined.

(** A piece of the block: what it did, and its value or the exception
    that ended it. *)
Definition prog (A : Type) : Type := list effect * outcome A.

#[global] Instance prog_ret : MRet prog := λ A a, ([], Return a).

#[global] Instance prog_bind : MBind prog := λ A B f m,
  match m with
  | (done, Return a) => let '(more, r) := f a in (done ++ more, r)
  | (done, Raise e) => (done, Raise e)
  end.

Definition emit (e : effect) : prog unit := ([e], Return ()).

Definition emits (es : list effect) : prog unit := (es, Return ()).

Definition lift {A} (r : outcome A) : prog A := ([], r).

Definition sys_exit {A} (code : Z) : prog A := ([], Raise (SystemExit code)).

(** [parser.error(msg)] prints the message and exits with 2. *)
Definition error {A} (msg : string) : prog A :=
  ([parser_error msg], Raise (SystemExit 2)).

Definition when (b : bool) (m : prog unit) : prog unit :=
  if b then m else mret ().

Definition truthy (o : option string) : bool := negb (falsy o).

Definition isabs (path : string) : bool :=
  match path with
  | String "/"%char _ => true
  | _ => false
  end.

(** [os.path.join(a, b)] *)
Definition os_path_join (a b : string) : string :=
  if isabs b then b
  else match Api.last_char a with
       | None => b
       | Some c => if decide (c = "/"%char) then a +:+ b
                   else a +:+ "/" +:+ b
       end.

(** What [_PrepareToServeUpdatesOnly] did, as effects of the block. *)
Definition of_action (a : action) : effect :=
  match a with
  | say msg => cherrypy_log msg
  | call c => fs c
  end.

(** Lines 465-478: the directory served from, and [serve_only]. *)
Definition serve_archive (options : options) (w : world) (static_dir : string)
    : prog (string * bool) :=
  if truthy (archive_dir options) then
    let archive_dir := default EmptyString (archive_dir options) in
    let archive_dir :=
      if isabs archive_dir then archive_dir
      else realpath w (os_path_join (devserver_dir w) archive_dir) in
    let p := _PrepareToServeUpdatesOnly archive_dir
               (path_exists w archive_dir) (archive_link w) in
    emits (of_action <$> did p);;
    lift (ended p);;
    mret (realpath w archive_dir, true)
  else mret (static_dir, false).

(** Lines 530-542, on the updater made with
    [copy_to_static_root = not options.exit]. *)
Definition factory_or_pregenerate (options : options) (w : world)
    : prog unit :=
  when (negb (truthy (factory_config options))
        && validate_factory_config options)
    (error "You need a factory_config to validate.");;
  if truthy (factory_config options) then
    emit (ImportFactoryConfigFile
            (default EmptyString (factory_config options))
            (validate_factory_config options));;
    lift (import_factory_config w (negb (exit options)));;
    when (validate_factory_config options) (sys_exit 0)
  else if pregenerate_update options then
    emit PreGenerateUpdate;;
    ok ← lift (pregenerate w (negb (exit options)));
    when (negb ok) (sys_exit 1)
  else mret ().

(** Lines 72-116.  Of the configuration the port is kept, the one item
    whose computation can fail: [int(options.port)], line 78. *)
Definition _GetConfig (options : options) (w : world) : prog Z :=
  match port options with
  | None => mret 8080%Z
  | Some text =>
      match int w text with
      | Some n => mret n
      | None => lift (Raise (Foreign "ValueError"))
      end
  end.

(** Lines 545-546: [_GetConfig(options)] is evaluated before
    [cherrypy.quickstart] is called with it. *)
Definition last_step (options : options) (w : world) : prog unit :=
  when (negb (exit options))
    (socket_port ← _GetConfig options w;
     emit (quickstart socket_port)).

Definition main (options : options) (w : world) : prog unit :=
  let root_dir := realpath w (devserver_dir w +:+ "/../..") in
  let static_dir := realpath w (data_dir options +:+ "/static") in
  emit (mkdir_p static_dir);;
  when (truthy (log_dir options)
        && negb (isdir w (default EmptyString (log_dir options))))
    (error (default EmptyString (log_dir options)
            +:+ " is not a valid dir, provide a valid dir to --log-dir"));;
  '(static_dir, serve_only) ← serve_archive options w static_dir;
  let cache_dir := os_path_join static_dir "cache" in
  emit (cherrypy_log ("Using cache directory " +:+ cache_dir));;
  let setup := cache_setup (machine_at w cache_dir) cache_dir
                 (clear_cache options) in
  emits (on_cache <$> effects setup);;
  lift (result setup);;
  when (negb (bool_decide (client_prefix_deprecated options = EmptyString)))
    (emit (cherrypy_log ("The --client_prefix argument is DEPRECATED, "
                         +:+ "and is no longer needed.")));;
  emit (cherrypy_log ("Data dir is " +:+ data_dir options));;
  emit (cherrypy_log ("Source root is " +:+ root_dir));;
  emit (cherrypy_log ("Serving from " +:+ static_dir));;
  emit (Autoupdate static_dir serve_only (negb (exit options)));;
  factory_or_pregenerate options w;;
  last_step options w.

(** The same options with [--exit] given or not. *)
Definition with_exit (b : bool) (o : options) : options :=
  {| archive_dir := archive_dir o; clear_cache := clear_cache o;
     client_prefix_deprecated := client_prefix_deprecated o;
     data_dir := data_dir o; exit := b;
     factory_config := factory_config o; log_dir := log_dir o;
     port := port o; pregenerate_update := pregenerate_update o;
     validate_factory_config := validate_factory_config o |}.

(** The same effect with [copy_to_static_root] on. *)
Definition copy_on (e : effect) : effect :=
  match e with
  | Autoupdate static_dir serve_only _ => Autoupdate static_dir serve_only true
  | _ => e
  end.

(** What comes before the updater is made: directories, links, the cache,
    messages. *)
Definition preparation (e : effect) : bool :=
  match e with
  | mkdir_p _ | fs _ | cherrypy_log _ | on_cache _ | parser_error _ => true
  | _ => false
  end.

(** The calls on the updater once it is made. *)
Definition updater_call (e : effect) : bool :=
  match e with
  | ImportFactoryConfigFile _ _ | PreGenerateUpdate | parser_error _ => true
  | _ => false
  end.

Definition is_quickstart (e : effect) : bool :=
  match e with
  | quickstart _ => true
  | _ => false
  end.

(** The server was started. *)
Definition serves (p : prog unit) : Prop := Exists is_quickstart p.1.

#[global] Instance serves_dec p : Decision (serves p).
Proof. unfold serves. apply _. Defined.

End Main.

(** ** More concrete inputs *)

Module Inputs.

Import Cache Examples Main.

Definition plain_options : options :=
  {| archive_dir := None; clear_cache := false;
     client_prefix_deprecated := EmptyString; data_dir := "/srv/dev";
     exit := false; factory_config := None; log_dir := None;
     port := None; pregenerate_update := false; validate_factory_config := false |}.

(** A machine with an empty cache directory and nothing else of note. *)
Definition quiet_world : world :=
  {| devserver_dir := "/srv/dev";
     realpath := λ p, p;
     isdir := λ _, true;
     path_exists := λ _, true;
     archive_link := None;
     machine_at := λ _, machine_with [];
     int := λ text, if bool_decide (text = "8081") then Some 8081%Z else None;
     import_factory_config := λ _, Return ();
     pregenerate := λ _, Return true |}.

Definition validating (o : options) : options :=
  {| archive_dir := archive_dir o; clear_cache := clear_cache o;
     client_prefix_deprecated := client_prefix_deprecated o;
     data_dir := data_dir o; exit := exit o;
     factory_config := factory_config o; log_dir := log_dir o;
     port := port o; pregenerate_update := pregenerate_update o;
     validate_factory_config := true |}.

Definition clearing (o : options) : options :=
  {| archive_dir := archive_dir o; clear_cache := true;
     client_prefix_deprecated := client_prefix_deprecated o;
     data_dir := data_dir o; exit := exit o;
     factory_config := factory_config o; log_dir := log_dir o;
     port := port o; pregenerate_update := pregenerate_update o;
     validate_factory_config := validate_factory_config o |}.

Definition with_factory_config (path : string) (o : options) : options :=
  {| archive_dir := archive_dir o; clear_cache := clear_cache o;
     client_prefix_deprecated := client_prefix_deprecated o;
     data_dir := data_dir o; exit := exit o;
     factory_config := Some path; log_dir := log_dir o;
     port := port o; pregenerate_update := pregenerate_update o;
     validate_factory_config := validate_factory_config o |}.

Definition with_port (text : string) (o : options) : options :=
  {| archive_dir := archive_dir o; clear_cache := clear_cache o;
     client_prefix_deprecated := client_prefix_deprecated o;
     data_dir := data_dir o; exit := exit o;
     factory_config := factory_config o; log_dir := log_dir o;
     port := Some text; pregenerate_update := pregenerate_update o;
     validate_factory_config := validate_factory_config o |}.

(** Names [xargs] would cut up or read as quoted, and one [ls] hides. *)
Definition odd_names : list entry :=
  [ Entry "old build" 1 true; Entry "it's" 2 true; Entry ".lock" 3 false;
    Entry "-rf" 4 true ].

End Inputs.

(** * Properties *)

(** ** Strings *)

Section strings.

Implicit Types (s t u : string) (c : ascii).

Lemma app_String c s t : String c s +:+ t = String c (s +:+ t).
Proof. done. Qed.

Lemma app_empty_r s : s +:+ EmptyString = s.
Proof. induction s as [|c s IH]; [done|]. by rewrite app_String, IH. Qed.

Lemma app_app s t u : (s +:+ t) +:+ u = s +:+ (t +:+ u).
Proof. induction s as [|c s IH]; [done|]. by rewrite !app_String, IH. Qed.

End strings.

(** ** The staging coordinator *)

Section coordinator.

Import Coordinator Examples.


Implicit Types (s : state) (key : string) (kwargs : gmap string string).

Lemma run_snoc evs ev s : run (evs ++ [ev]) s = step (run evs s) ev.
Proof. unfold run. by rewrite foldl_app. Qed.

Lemma run_cons ev evs s : run (ev :: evs) s = run evs (step s ev).
Proof. done. Qed.

Lemma falsy_key kwargs key :
  kwargs !! "archive_url" = Some key → key ≠ EmptyString →
  falsy (kwargs !! "archive_url") = false.
Proof. intros -> ?. by destruct key. Qed.

Lemma falsy_false_key kwargs :
  falsy (kwargs !! "archive_url") = false →
  ∃ key, kwargs !! "archive_url" = Some key ∧ key ≠ EmptyString.
Proof.
  destruct (kwargs !! "archive_url") as [[|c k]|]; try done.
  intros _. by eexists.
Qed.

(** [download], case by case. *)
Lemma download_no_key kwargs launch s :
  falsy (kwargs !! "archive_url") = true →
  download kwargs launch s
  = (Raise (DevServerError "Didn't specify the archive_url in request"),
     (new_Downloader s).2).
Proof. intros H. unfold download. simpl. by rewrite H. Qed.

Lemma download_launched kwargs key obj s :
  kwargs !! "archive_url" = Some key → key ≠ EmptyString →
  download kwargs (Return obj) s
  = (Return obj,
     {| _downloader_dict := <[key := Some (length (heap s))]> (_downloader_dict s);
        heap := heap s ++ [Task key Running];
        static_dir := static_dir s |}).
Proof.
  intros Hk Hne. unfold download. simpl.
  rewrite (falsy_key _ _ Hk Hne), Hk. simpl.
  unfold set_object, set_dict. simpl. do 2 f_equal.
  rewrite insert_app_r_alt, Nat.sub_diag by done. done.
Qed.

Lemma download_not_launched kwargs key e s :
  kwargs !! "archive_url" = Some key → key ≠ EmptyString →
  download kwargs (Raise e) s
  = (Raise e,
     {| _downloader_dict := <[key := None]> (_downloader_dict s);
        heap := heap s ++ [Idle];
        static_dir := static_dir s |}).
Proof.
  intros Hk Hne. unfold download. simpl.
  rewrite (falsy_key _ _ Hk Hne), Hk. simpl.
  unfold set_dict. simpl. by rewrite insert_insert_eq.
Qed.

(** [wait_for_status], case by case. *)
Lemma wait_for_status_tracked kwargs key d s :
  kwargs !! "archive_url" = Some key → key ≠ EmptyString →
  tracked key s = Some d →
  wait_for_status kwargs s
  = status ← heap s !! d ≫= GetStatusOfBackgroundDownloads;
    Some (Return status, set_dict key None s).
Proof.
  intros Hk Hne Ht. unfold wait_for_status.
  rewrite (falsy_key _ _ Hk Hne), Hk. simpl.
  unfold tracked in Ht. rewrite Ht.
  by destruct (heap s !! d ≫= GetStatusOfBackgroundDownloads).
Qed.

Lemma wait_for_status_fallback kwargs key s :
  kwargs !! "archive_url" = Some key → key ≠ EmptyString →
  tracked key s = None →
  wait_for_status kwargs s = Some (cache_answer key s, s).
Proof.
  intros Hk Hne Ht. unfold wait_for_status, cache_answer.
  rewrite (falsy_key _ _ Hk Hne), Hk. simpl.
  unfold tracked in Ht. rewrite Ht.
  by destruct (BuildStaged key (static_dir s)).
Qed.

Lemma tracked_set_dict key k v s :
  tracked key (set_dict k v s) = if decide (k = key) then v else tracked key s.
Proof.
  unfold tracked, set_dict. simpl. case_decide as Hk.
  - subst. by rewrite lookup_insert_eq.
  - by rewrite lookup_insert_ne.
Qed.

Lemma elem_of_running key s d :
  d ∈ running key s ↔ heap s !! d = Some (Task key Running).
Proof.
  unfold running. rewrite list_elem_of_filter, elem_of_seq. split.
  - by intros [? _].
  - intros H. split; [done|]. apply lookup_lt_Some in H. lia.
Qed.

Lemma NoDup_running key s : NoDup (running key s).
Proof. apply NoDup_filter, NoDup_seq. Qed.

Lemma NoDup_all_same {A} (l : list A) (a : A) :
  NoDup l → (∀ x, x ∈ l → x = a) → length l ≤ 1.
Proof.
  intros Hnd Hall. destruct l as [|x [|y l]]; simpl; try lia.
  apply NoDup_cons in Hnd as [Hx _].
  exfalso. apply Hx.
  rewrite (Hall x), <- (Hall y); [left | right; left | left].
Qed.

(** At most one tracked Running task per key, in whatever state. *)
Lemma tracked_running_le_1 key s : length (tracked_running key s) ≤ 1.
Proof.
  unfold tracked_running.
  apply (NoDup_all_same _ (default 0 (tracked key s))).
  - apply NoDup_filter, NoDup_running.
  - intros d [Hd _]%list_elem_of_filter. by rewrite Hd.
Qed.

(** The dictionary only ever tracks tasks of the key it files them under. *)
Lemma step_tracks_tasks s ev : tracks_tasks s → tracks_tasks (step s ev).
Proof.
  intros Hwf. destruct ev as [kwargs launch|kwargs|d error]; simpl.
  - destruct (falsy (kwargs !! "archive_url")) eqn:Hf.
    + rewrite download_no_key by done. simpl.
      intros key d Hd. destruct (Hwf key d Hd) as [st Hst].
      exists st. by apply lookup_app_l_Some.
    + destruct (falsy_false_key _ Hf) as (k & Hk & Hne).
      destruct launch as [obj|e].
      * rewrite (download_launched _ k) by done. simpl.
        intros key d. unfold tracked. simpl.
        destruct (decide (k = key)) as [->|Hkk].
        -- rewrite lookup_insert_eq. simpl. intros [= <-].
           exists Running. by rewrite lookup_app_r, Nat.sub_diag.
        -- rewrite lookup_insert_ne by done. intros Hd.
           destruct (Hwf key d Hd) as [st Hst].
           exists st. by apply lookup_app_l_Some.
      * rewrite (download_not_launched _ k) by done. simpl.
        intros key d. unfold tracked. simpl.
        destruct (decide (k = key)) as [->|Hkk].
        -- by rewrite lookup_insert_eq.
        -- rewrite lookup_insert_ne by done. intros Hd.
           destruct (Hwf key d Hd) as [st Hst].
           exists st. by apply lookup_app_l_Some.
  - destruct (wait_for_status kwargs s) as [[r s']|] eqn:Hw; [|done].
    unfold wait_for_status in Hw.
    destruct (falsy (kwargs !! "archive_url")); [by simplify_eq|].
    destruct (default None (_ !! _)) as [d|].
    + destruct (heap s !! d ≫= _); simplify_eq.
      intros key d'. rewrite tracked_set_dict. case_decide; [done|]. apply Hwf.
    + destruct (BuildStaged _ _); by simplify_eq.
  - unfold background_done.
    destruct (heap s !! d) as [[|k [| |msg]]|] eqn:Hd; try done.
    assert (∀ o' st', tracks_tasks
      {| _downloader_dict := _downloader_dict s;
         heap := <[d := Task k st']> (heap s); static_dir := o' |}) as Hgen.
    { intros o' st' key d' Hd'. destruct (Hwf key d' Hd') as [st Hst].
      simpl. destruct (decide (d = d')) as [->|Hne].
      - exists st'. rewrite list_lookup_insert_eq by (by eapply lookup_lt_Some).
        congruence.
      - exists st. by rewrite list_lookup_insert_ne. }
    destruct error; apply Hgen.
Qed.

Lemma run_tracks_tasks evs s : tracks_tasks s → tracks_tasks (run evs s).
Proof.
  revert s. induction evs as [|ev evs IH]; intros s Hs; [done|].
  rewrite run_cons. by apply IH, step_tracks_tasks.
Qed.

Lemma init_tracks_tasks : tracks_tasks init.
Proof. intros key d. unfold tracked. simpl. by rewrite lookup_empty. Qed.

(** Events other than a [download] of the key leave it untracked. *)
Lemma step_untracked key s ev :
  ¬ downloads key ev → tracked key s = None → tracked key (step s ev) = None.
Proof.
  intros Hev Ht. destruct ev as [kwargs launch|kwargs|d error]; simpl in *.
  - destruct (falsy (kwargs !! "archive_url")) eqn:Hf.
    + by rewrite download_no_key.
    + destruct (falsy_false_key _ Hf) as (k & Hk & Hne).
      assert (k ≠ key) by congruence.
      destruct launch as [obj|e].
      * rewrite (download_launched _ k) by done. unfold tracked in *. simpl.
        by rewrite lookup_insert_ne.
      * rewrite (download_not_launched _ k) by done. unfold tracked in *. simpl.
        by rewrite lookup_insert_ne.
  - destruct (wait_for_status kwargs s) as [[r s']|] eqn:Hw; [|done].
    unfold wait_for_status in Hw.
    destruct (falsy (kwargs !! "archive_url")); [by simplify_eq|].
    destruct (default None (_ !! _)) as [d|].
    + destruct (heap s !! d ≫= _); simplify_eq.
      rewrite tracked_set_dict. by case_decide.
    + destruct (BuildStaged _ _); by simplify_eq.
  - unfold background_done.
    by destruct (heap s !! d) as [[|k [| |msg]]|], error.
Qed.

Lemma run_untracked key evs s :
  Forall (λ ev, ¬ downloads key ev) evs →
  tracked key s = None → tracked key (run evs s) = None.
Proof.
  intros Hevs. revert s. induction Hevs as [|ev evs Hev _ IH]; intros s Hs.
  - done.
  - rewrite run_cons. by apply IH, step_untracked.
Qed.

(** [wait_for_status] reads the dictionary through [tracked] only. *)
Lemma wait_for_status_alike kwargs s1 s2 :
  alike s1 s2 →
  fst <$> wait_for_status kwargs s1 = fst <$> wait_for_status kwargs s2
  ∧ ∀ r1 r2 t1 t2, wait_for_status kwargs s1 = Some (r1, t1) →
      wait_for_status kwargs s2 = Some (r2, t2) → alike t1 t2.
Proof.
  intros (Ht & Hh & Hd). unfold wait_for_status.
  destruct (falsy (kwargs !! "archive_url")).
  { split; [done|]. intros ???? [= <- <-] [= <- <-]. by repeat split. }
  set (k := default EmptyString (kwargs !! "archive_url")).
  pose proof (Ht k) as Hk. unfold tracked in Hk. rewrite Hk, Hh, Hd.
  destruct (default None (_downloader_dict s2 !! k)) as [d|].
  - destruct (heap s2 !! d ≫= _); [|done].
    split; [done|]. intros ???? [= <- <-] [= <- <-].
    split; [|done]. intros key. rewrite !tracked_set_dict. by case_decide.
  - destruct (BuildStaged _ _); (split; [done|]);
      intros ???? [= <- <-] [= <- <-]; by repeat split.
Qed.

Lemma download_alike kwargs launch s1 s2 :
  alike s1 s2 →
  (download kwargs launch s1).1 = (download kwargs launch s2).1
  ∧ alike (download kwargs launch s1).2 (download kwargs launch s2).2.
Proof.
  intros (Ht & Hh & Hd).
  destruct (falsy (kwargs !! "archive_url")) eqn:Hf.
  - rewrite !download_no_key by done. simpl. rewrite Hh, Hd.
    split; [done|]. by repeat split.
  - destruct (falsy_false_key _ Hf) as (k & Hk & Hne).
    destruct launch as [obj|e].
    + rewrite !(download_launched _ k) by done. simpl. rewrite Hh, Hd.
      split; [done|]. split; [|done].
      intros key. unfold tracked. simpl.
      destruct (decide (k = key)) as [->|].
      * by rewrite !lookup_insert_eq.
      * rewrite !lookup_insert_ne by done. apply Ht.
    + rewrite !(download_not_launched _ k) by done. simpl. rewrite Hh, Hd.
      split; [done|]. split; [|done].
      intros key. unfold tracked. simpl.
      destruct (decide (k = key)) as [->|].
      * by rewrite !lookup_insert_eq.
      * rewrite !lookup_insert_ne by done. apply Ht.
Qed.

Lemma step_alike s1 s2 ev :
  alike s1 s2 → output s1 ev = output s2 ev ∧ alike (step s1 ev) (step s2 ev).
Proof.
  intros Ha. destruct ev as [kwargs launch|kwargs|d error]; simpl.
  - destruct (download_alike kwargs launch s1 s2 Ha) as [-> ?]. done.
  - destruct (wait_for_status_alike kwargs s1 s2 Ha) as [Ho Hs].
    split; [done|].
    destruct (wait_for_status kwargs s1) as [[r1 t1]|],
             (wait_for_status kwargs s2) as [[r2 t2]|]; try done.
    by eapply Hs.
  - split; [done|]. destruct Ha as (Ht & Hh & Hd).
    unfold background_done. rewrite Hh.
    destruct (heap s2 !! d) as [[|k [| |msg]]|]; try (by repeat split).
    destruct error; (split; [apply Ht|]); simpl; by rewrite ?Hh, ?Hd.
Qed.

Lemma outputs_alike evs s1 s2 :
  alike s1 s2 → outputs evs s1 = outputs evs s2.
Proof.
  revert s1 s2. induction evs as [|ev evs IH]; intros s1 s2 Ha; [done|].
  destruct (step_alike s1 s2 ev Ha) as [Ho Hs]. simpl.
  rewrite Ho. f_equal. by apply IH.
Qed.

Lemma forget_alike key s :
  _downloader_dict s !! key = Some None → alike s (forget key s).
Proof.
  intros Hk. split; [|done]. intros k. unfold tracked, forget. simpl.
  destruct (decide (key = k)) as [<-|].
  - by rewrite Hk, lookup_delete_eq.
  - by rewrite lookup_delete_ne.
Qed.

(** No event takes a key out of the dictionary. *)
Lemma step_dom s ev :
  dom (_downloader_dict s) ⊆ dom (_downloader_dict (step s ev)).
Proof.
  destruct ev as [kwargs launch|kwargs|d error]; simpl.
  - destruct (falsy (kwargs !! "archive_url")) eqn:Hf.
    + by rewrite download_no_key.
    + destruct (falsy_false_key _ Hf) as (k & Hk & Hne).
      destruct launch as [obj|e].
      * rewrite (download_launched _ k) by done. simpl. set_solver.
      * rewrite (download_not_launched _ k) by done. simpl. set_solver.
  - destruct (wait_for_status kwargs s) as [[r s']|] eqn:Hw; [|done].
    unfold wait_for_status in Hw.
    destruct (falsy (kwargs !! "archive_url")); [by simplify_eq|].
    destruct (default None (_ !! _)) as [d|].
    + destruct (heap s !! d ≫= _); simplify_eq. simpl. set_solver.
    + destruct (BuildStaged _ _); by simplify_eq.
  - unfold background_done.
    by destruct (heap s !! d) as [[|k [| |msg]]|], error.
Qed.

Lemma run_dom evs s :
  dom (_downloader_dict s) ⊆ dom (_downloader_dict (run evs s)).
Proof.
  revert s. induction evs as [|ev evs IH]; intros s; [done|].
  rewrite run_cons. etrans; [apply step_dom|apply IH].
Qed.

(** *** The claims *)

(** Claim C1 as it is stated does not hold: after two [download] calls for
    one build, neither complete, two tasks of that build are Running at the
    same time. *)
Lemma two_downloads_two_running : ¬ single_flight (run staged_twice init).
Proof.
  intros H. specialize (H build_A). vm_compute in H. lia.
Qed.

(** Claim C1, amended.  At any instant the dictionary tracks at most one
    Running task per key.  Two [download] calls for the same key, the first
    launched and not yet complete, leave the first task Running and no
    longer tracked: when the second launch returns, two tasks of that key
    are Running and only the second is tracked; when it raises, the second
    object is not Running and the key tracks nothing. *)
Theorem tracked_running_at_most_one evs kwargs key obj1
    (launch2 : outcome string) :
  kwargs !! "archive_url" = Some key → key ≠ EmptyString →
  let s := run evs init in
  let n := length (heap s) in
  let s2 := run [Call_download kwargs (Return obj1);
                 Call_download kwargs launch2] s in
  length (tracked_running key s) ≤ 1
  ∧ length (tracked_running key s2) ≤ 1
  ∧ n ∈ running key s2
  ∧ match launch2 with
    | Return _ => S n ∈ running key s2 ∧ tracked key s2 = Some (S n)
    | Raise _ => (S n ∉ running key s2) ∧ tracked key s2 = None
    end.
Proof.
  intros Hk Hne s n s2.
  split; [apply tracked_running_le_1|].
  split; [apply tracked_running_le_1|].
  subst s2. unfold run. simpl.
  rewrite (download_launched _ key) by done.
  destruct launch2 as [obj2|e].
  - rewrite (download_launched _ key) by done. simpl.
    rewrite !elem_of_running. simpl.
    rewrite length_app. simpl. subst n.
    split; [|split].
    + rewrite lookup_app_l by (rewrite length_app; simpl; lia).
      by rewrite lookup_app_r, Nat.sub_diag.
    + rewrite lookup_app_r by (rewrite length_app; simpl; lia).
      rewrite length_app. simpl.
      by replace (S (length (heap s)) - (length (heap s) + 1)) with 0 by lia.
    + unfold tracked. simpl. rewrite lookup_insert_eq. simpl. f_equal. lia.
  - rewrite (download_not_launched _ key) by done. simpl.
    rewrite !elem_of_running. simpl. subst n.
    split; [|split].
    + rewrite lookup_app_l by (rewrite length_app; simpl; lia).
      by rewrite lookup_app_r, Nat.sub_diag.
    + rewrite lookup_app_r by (rewrite length_app; simpl; lia).
      rewrite length_app. simpl.
      by replace (S (length (heap s)) - (length (heap s) + 1)) with 0 by lia.
    + unfold tracked. simpl. by rewrite lookup_insert_eq.
Qed.

(** The two requests for [build_A]: objects 0 and 1 are both Running, and
    object 1 is the tracked one. *)
Lemma tracked_running_at_most_one_witness :
  length (tracked_running build_A (run staged_twice init)) ≤ 1
  ∧ 0 ∈ running build_A (run staged_twice init)
  ∧ 1 ∈ running build_A (run staged_twice init)
  ∧ tracked build_A (run staged_twice init) = Some 1.
Proof.
  pose proof (tracked_running_at_most_one [] (request build_A) build_A
                "Success" (Return "Success")) as H.
  simpl in H.
  destruct H as (_ & H1 & H2 & H3 & H4); [reflexivity|discriminate|].
  exact (conj H1 (conj H2 (conj H3 H4))).
Defined.

(** Claim C2.  When [download] is called for a key that has a tracked task
    [d0], Running or finished, the call makes a new object, leaves [d0] as it
    was (it is neither cancelled nor waited for), takes [d0] out of the
    dictionary, and calls [Download] on the new object; when that launch
    returns, the new object is the tracked one and is Running. *)
Theorem download_replaces_tracked evs kwargs key d0 launch :
  kwargs !! "archive_url" = Some key → key ≠ EmptyString →
  let s := run evs init in
  tracked key s = Some d0 →
  let d := length (heap s) in
  let r := download kwargs launch s in
  d0 ≠ d
  ∧ (∃ st, heap s !! d0 = Some (Task key st))
  ∧ heap r.2 !! d0 = heap s !! d0
  ∧ tracked key r.2 ≠ Some d0
  ∧ (∃ o, heap r.2 !! d = Some o)
  ∧ (∀ obj, launch = Return obj →
       r.1 = Return obj
       ∧ tracked key r.2 = Some d
       ∧ heap r.2 !! d = Some (Task key Running)).
Proof.
  intros Hk Hne s Ht d r.
  destruct (run_tracks_tasks evs init init_tracks_tasks key d0 Ht) as [st Hst].
  fold s in Hst.
  assert (d0 < d) as Hlt by (by eapply lookup_lt_Some).
  split; [lia|]. split; [by exists st|].
  subst r. destruct launch as [obj|e].
  - rewrite (download_launched _ key) by done. simpl.
    rewrite lookup_app_l by done.
    unfold tracked. simpl. rewrite lookup_insert_eq. simpl.
    split; [done|]. split; [intros [= ?]; lia|].
    split; [exists (Task key Running); by rewrite lookup_app_r, Nat.sub_diag|].
    intros ? [= <-]. by rewrite lookup_app_r, Nat.sub_diag.
  - rewrite (download_not_launched _ key) by done. simpl.
    rewrite lookup_app_l by done.
    unfold tracked. simpl. rewrite lookup_insert_eq. simpl.
    split; [done|]. split; [done|].
    split; [exists Idle; by rewrite lookup_app_r, Nat.sub_diag|done].
Qed.

(** A second request for [build_A] while the first is at work. *)
Lemma download_replaces_tracked_witness :
  let s := run staged_once init in
  let r := download (request build_A) (Return "Success") s in
  heap r.2 !! 0 = heap s !! 0
  ∧ tracked build_A r.2 = Some 1
  ∧ heap r.2 !! 1 = Some (Task build_A Running).
Proof.
  destruct (download_replaces_tracked staged_once (request build_A) build_A 0
              (Return "Success")) as (_ & _ & H1 & _ & _ & H2);
    [reflexivity | discriminate | reflexivity |].
  destruct (H2 "Success" eq_refl) as (_ & H3 & H4).
  exact (conj H1 (conj H3 H4)).
Defined.

(** Claim C3.  [wait_for_status] for a key with no tracked task answers
    from the cache alone: the string [Success] when the build is staged,
    the error [No download for the given archive_url found.] when it is not;
    it never blocks and changes nothing. *)
Theorem wait_for_status_untracked kwargs key s :
  kwargs !! "archive_url" = Some key → key ≠ EmptyString →
  tracked key s = None →
  wait_for_status kwargs s
  = Some (if BuildStaged key (static_dir s) then Return "Success"
          else Raise (DevServerError
                        "No download for the given archive_url found."),
          s).
Proof. apply wait_for_status_fallback. Qed.

(** Nothing was ever requested and nothing is staged. *)
Lemma wait_for_status_untracked_witness :
  wait_for_status (request build_A) init
  = Some (Raise (DevServerError "No download for the given archive_url found."),
          init).
Proof.
  apply (wait_for_status_untracked (request build_A) build_A init);
    [reflexivity | discriminate | reflexivity].
Defined.

(** Claim C4.  The first [wait_for_status] that gets the terminal status of
    a tracked task returns it and takes the task out of the dictionary: the
    key is untracked, and no later sequence of events can tell the process
    from one without the key.  From then on, as long as no [download] for the
    key comes in, the key stays untracked and every [wait_for_status] for it
    answers from the cache: [Success] when the build is staged. *)
Theorem poll_consumes_once kwargs key d status s :
  kwargs !! "archive_url" = Some key → key ≠ EmptyString →
  tracked key s = Some d →
  heap s !! d ≫= GetStatusOfBackgroundDownloads = Some status →
  ∃ s1,
    wait_for_status kwargs s = Some (Return status, s1)
    ∧ tracked key s1 = None
    ∧ (∀ evs, outputs evs s1 = outputs evs (forget key s1))
    ∧ ∀ evs, Forall (λ ev, ¬ downloads key ev) evs →
        let s2 := run evs s1 in
        tracked key s2 = None
        ∧ wait_for_status kwargs s2
          = Some (if BuildStaged key (static_dir s2) then Return "Success"
                  else Raise (DevServerError
                                "No download for the given archive_url found."),
                  s2).
Proof.
  intros Hk Hne Ht Hst. exists (set_dict key None s).
  split; [|split; [|split]].
  - rewrite (wait_for_status_tracked _ key d) by done. by rewrite Hst.
  - rewrite tracked_set_dict. by case_decide.
  - intros evs. apply outputs_alike, forget_alike. simpl.
    by rewrite lookup_insert_eq.
  - intros evs Hevs s2.
    assert (tracked key s2 = None) as Hs2.
    { apply run_untracked; [done|]. rewrite tracked_set_dict. by case_decide. }
    split; [done|]. by apply wait_for_status_fallback.
Qed.

(** [build_A], staged: the first poll consumes the task. *)
Lemma poll_consumes_once_witness :
  ∃ s1,
    wait_for_status (request build_A) (run fetched init)
    = Some (Return "Success", s1)
    ∧ tracked build_A s1 = None
    ∧ (∀ evs, outputs evs s1 = outputs evs (forget build_A s1))
    ∧ ∀ evs, Forall (λ ev, ¬ downloads build_A ev) evs →
        let s2 := run evs s1 in
        tracked build_A s2 = None
        ∧ wait_for_status (request build_A) s2
          = Some (if BuildStaged build_A (static_dir s2) then Return "Success"
                  else Raise (DevServerError
                                "No download for the given archive_url found."),
                  s2).
Proof.
  apply (poll_consumes_once (request build_A) build_A 0 "Success"
           (run fetched init));
    [reflexivity | discriminate | reflexivity | reflexivity].
Defined.

(** Claim C8.  A [download] whose launch succeeded returns the launch's
    value with the task still Running, so before the transfer has ended; when
    the transfer then fails, the failure is the state of the task, which
    stays tracked, and the next [wait_for_status] returns its message.  The
    result of [download] is that of the launch, whatever has become of the
    tasks. *)
Theorem fetch_failure_surfaces_on_poll kwargs key obj msg s :
  kwargs !! "archive_url" = Some key → key ≠ EmptyString →
  let d := length (heap s) in
  let r := download kwargs (Return obj) s in
  let s' := background_done d (Some msg) r.2 in
  r.1 = Return obj
  ∧ heap r.2 !! d = Some (Task key Running)
  ∧ heap s' !! d = Some (Task key (Failed msg))
  ∧ tracked key s' = Some d
  ∧ wait_for_status kwargs s' = Some (Return msg, set_dict key None s')
  ∧ ∀ s0 launch, (download kwargs launch s0).1 = launch.
Proof.
  intros Hk Hne d r s'.
  assert (r = (Return obj,
     {| _downloader_dict := <[key := Some d]> (_downloader_dict s);
        heap := heap s ++ [Task key Running];
        static_dir := static_dir s |})) as Hr
    by (by apply download_launched).
  assert (heap r.2 !! d = Some (Task key Running)) as Hd.
  { rewrite Hr. simpl. by rewrite lookup_app_r, Nat.sub_diag. }
  assert (heap s' !! d = Some (Task key (Failed msg))) as Hd'.
  { subst s'. unfold background_done. rewrite Hd. simpl.
    apply list_lookup_insert_eq. by eapply lookup_lt_Some. }
  assert (tracked key s' = Some d) as Ht.
  { subst s'. unfold background_done. rewrite Hd. rewrite Hr.
    unfold tracked. simpl. by rewrite lookup_insert_eq. }
  split; [by rewrite Hr|]. split; [done|]. split; [done|]. split; [done|].
  split.
  - rewrite (wait_for_status_tracked _ key d) by done. by rewrite Hd'.
  - intros s0 [o|e].
    + by rewrite (download_launched _ key).
    + by rewrite (download_not_launched _ key).
Qed.

(** The fetch of [build_A] fails after [download] has returned. *)
Lemma fetch_failure_surfaces_on_poll_witness :
  let r := download (request build_A) (Return "Success") init in
  let s' := background_done 0 (Some "404 from the blob store") r.2 in
  r.1 = Return "Success"
  ∧ wait_for_status (request build_A) s'
    = Some (Return "404 from the blob store", set_dict build_A None s').
Proof.
  destruct (fetch_failure_surfaces_on_poll (request build_A) build_A "Success"
              "404 from the blob store" init) as (H1 & _ & _ & _ & H2 & _);
    [reflexivity | discriminate |].
  exact (conj H1 H2).
Defined.

(** Claim C10.  Both ways of consuming a tracked task leave the key in the
    dictionary, bound to [None]: [wait_for_status] after it got the status,
    and [download] when the launch raised.  A key bound to [None] is handled
    like a missing key by every later sequence of events, and no event ever
    takes a key out of the dictionary. *)
Theorem consumed_key_stays_as_None kwargs key d status e s :
  kwargs !! "archive_url" = Some key → key ≠ EmptyString →
  tracked key s = Some d →
  heap s !! d ≫= GetStatusOfBackgroundDownloads = Some status →
  let polled := set_dict key None s in
  let failed := (download kwargs (Raise e) s).2 in
  wait_for_status kwargs s = Some (Return status, polled)
  ∧ _downloader_dict polled !! key = Some None
  ∧ (download kwargs (Raise e) s).1 = Raise e
  ∧ _downloader_dict failed !! key = Some None
  ∧ (∀ s1 evs, _downloader_dict s1 !! key = Some None →
       outputs evs s1 = outputs evs (forget key s1)
       ∧ key ∈ dom (_downloader_dict (run evs s1))
       ∧ key ∉ dom (_downloader_dict (forget key s1)))
  ∧ (∀ s1 evs, dom (_downloader_dict s1) ⊆ dom (_downloader_dict (run evs s1))).
Proof.
  intros Hk Hne Ht Hst polled failed.
  split; [|split; [|split; [|split; [|split]]]].
  - rewrite (wait_for_status_tracked _ key d) by done. by rewrite Hst.
  - subst polled. simpl. by rewrite lookup_insert_eq.
  - by rewrite (download_not_launched _ key).
  - subst failed. rewrite (download_not_launched _ key) by done. simpl.
    by rewrite lookup_insert_eq.
  - intros s1 evs Hs1. split; [|split].
    + by apply outputs_alike, forget_alike.
    + apply (run_dom evs s1), elem_of_dom. by rewrite Hs1.
    + apply not_elem_of_dom. simpl. apply lookup_delete_eq.
  - intros s1 evs. apply run_dom.
Qed.

(** [build_A], staged and then polled, or requested again with a launch
    that fails. *)
Lemma consumed_key_stays_as_None_witness :
  let s := run fetched init in
  wait_for_status (request build_A) s
  = Some (Return "Success", set_dict build_A None s)
  ∧ _downloader_dict (set_dict build_A None s) !! build_A = Some None
  ∧ _downloader_dict (download (request build_A) (Raise (Foreign "lock")) s).2
      !! build_A = Some None.
Proof.
  destruct (consumed_key_stays_as_None (request build_A) build_A 0 "Success"
              (Foreign "lock") (run fetched init))
    as (H1 & H2 & _ & H3 & _);
    [reflexivity | discriminate | reflexivity | reflexivity |].
  exact (conj H1 (conj H2 H3)).
Defined.

End coordinator.

(** ** The cache clean-up *)

Section cache.

Import Cache Examples.

Implicit Types (dir : list entry) (e : entry) (n : string).

(** *** The order of [ls -tr] *)

#[local] Instance ls_tr_before_total : Total ls_tr_before.
Proof.
  intros a b. unfold ls_tr_before.
  destruct (Z.lt_trichotomy (mtime a) (mtime b)) as [?|[Heq|?]]; [auto| |auto].
  destruct (total String.le (name a) (name b)); [right|left]; right; auto.
Qed.

#[local] Instance ls_tr_before_trans : Transitive ls_tr_before.
Proof.
  intros a b c [?|[? ?]] [?|[? ?]]; unfold ls_tr_before.
  - left. lia.
  - left. lia.
  - left. lia.
  - right. split; [lia|]. by etrans.
Qed.

Lemma ls_tr_before_mtime a b : ls_tr_before a b → (mtime a ≤ mtime b)%Z.
Proof. intros [?|[? _]]; lia. Qed.

(** *** Text between the programs *)

Lemma plain_char_spec c :
  plain_char c = true →
  Ascii.is_space c = false ∧ c ≠ newline ∧ is_blank c = false
  ∧ is_quote c = false ∧ c ≠ "\"%char.
Proof.
  unfold plain_char. intros H.
  repeat (apply andb_prop in H as [H ?]).
  apply negb_true_iff in H.
  repeat split.
  - done.
  - intros ->. done.
  - unfold is_blank. apply bool_decide_eq_false. intros [->| ->]; done.
  - by apply negb_true_iff.
  - intros ->. done.
Qed.

Lemma read_lines_of_line n text :
  newline ∉ String.list_ascii_of_string n →
  read_lines (n +:+ String newline text) = n :: read_lines text.
Proof.
  induction n as [|c n IH]; intros Hn; [done|].
  simpl in Hn. apply not_elem_of_cons in Hn as [Hc Hn].
  rewrite app_String. simpl. rewrite decide_False by done.
  by rewrite IH.
Qed.

Lemma read_write_lines_back (ls : list string) :
  Forall (λ n, newline ∉ String.list_ascii_of_string n) ls →
  read_lines (write_lines ls) = ls.
Proof.
  induction 1 as [|n ls Hn _ IH]; [done|].
  simpl. by rewrite read_lines_of_line, IH.
Qed.

Lemma head_all_but_last_lines k (ls : list string) :
  Forall (λ n, newline ∉ String.list_ascii_of_string n) ls →
  head_all_but_last k (write_lines ls) = write_lines (take (length ls - k) ls).
Proof. intros H. unfold head_all_but_last. by rewrite read_write_lines_back. Qed.

Lemma xargs_read_word n p rest :
  all_plain n = true →
  xargs_read Norm p (n +:+ String newline rest)
  = push_arg (p +:+ n) (xargs_read Space EmptyString rest).
Proof.
  revert p. induction n as [|c n IH]; intros p Hn.
  - change (EmptyString +:+ String newline rest) with (String newline rest).
    simpl. by rewrite app_empty_r.
  - simpl in Hn. apply andb_prop in Hn as [Hc Hn].
    destruct (plain_char_spec c Hc) as (_ & Hnl & Hb & Hq & Hbs).
    rewrite app_String. simpl.
    rewrite decide_False by done. rewrite Hb.
    rewrite decide_False by done. rewrite Hq.
    rewrite IH by done. by rewrite app_app.
Qed.

Lemma xargs_read_line n rest :
  n ≠ EmptyString → all_plain n = true →
  xargs_read Space EmptyString (n +:+ String newline rest)
  = push_arg n (xargs_read Space EmptyString rest).
Proof.
  intros Hne Hn. destruct n as [|c n]; [done|].
  pose proof Hn as Hn'. simpl in Hn'. apply andb_prop in Hn' as [Hc _].
  destruct (plain_char_spec c Hc) as (Hs & _).
  trans (xargs_read Norm EmptyString (String c n +:+ String newline rest)).
  - rewrite app_String. simpl. by rewrite Hs.
  - by rewrite xargs_read_word.
Qed.

Lemma xargs_read_lines (ls : list string) :
  Forall plain ls →
  xargs_read Space EmptyString (write_lines ls) = (ls, true).
Proof.
  induction 1 as [|n ls (Hne & _ & _ & Hn) _ IH]; [done|].
  simpl. rewrite xargs_read_line by done. by rewrite IH.
Qed.


Lemma all_plain_no_newline n :
  all_plain n = true → newline ∉ String.list_ascii_of_string n.
Proof.
  induction n as [|c n IH]; simpl; [intros _; apply not_elem_of_nil|].
  intros [Hc Hn]%andb_prop. apply not_elem_of_cons. split; [|by apply IH].
  by destruct (plain_char_spec c Hc) as (_ & ? & _).
Qed.

(** *** [rm -rf] *)

Lemma filter_all {A} (P : A → Prop) `{∀ x, Decision (P x)} (l : list A) :
  Forall P l → filter P l = l.
Proof.
  induction 1 as [|x l Hx _ IH]; [done|].
  by rewrite filter_cons_True, IH.
Qed.

Lemma filter_none {A} (P : A → Prop) `{∀ x, Decision (P x)} (l : list A) :
  Forall (λ x, ¬ P x) l → filter P l = [].
Proof.
  induction 1 as [|x l Hx _ IH]; [done|].
  by rewrite filter_cons_False, IH.
Qed.

Lemma NoDup_fmap_same {A B} (f : A → B) (l : list A) x y :
  NoDup (f <$> l) → x ∈ l → y ∈ l → f x = f y → x = y.
Proof.
  induction l as [|a l IH]; simpl; [by intros _ ?%elem_of_nil|].
  intros [Ha Hl]%NoDup_cons [->|Hx]%elem_of_cons [->|Hy]%elem_of_cons Hf.
  - done.
  - exfalso. apply Ha. rewrite Hf. by apply list_elem_of_fmap_2.
  - exfalso. apply Ha. rewrite <- Hf. by apply list_elem_of_fmap_2.
  - by apply IH.
Qed.

Lemma filter_iff_on {A} (P Q : A → Prop)
    `{∀ x, Decision (P x), ∀ x, Decision (Q x)} (l : list A) :
  (∀ x, x ∈ l → P x ↔ Q x) → filter P l = filter Q l.
Proof.
  induction l as [|a l IH]; intros HPQ; [done|].
  rewrite !filter_cons.
  rewrite IH by (intros x Hx; apply HPQ; by right).
  destruct (decide (P a)) as [Hp|Hp], (decide (Q a)) as [Hq|Hq]; try done.
  - exfalso. apply Hq, HPQ; [by left|done].
  - exfalso. apply Hp, HPQ; [by left|done].
Qed.

(** What [rm] has removed so far decides what is left. *)
Lemma rm_one_keeps dir args r a :
  remaining r = filter (λ e, name e ∉ deleted r) dir →
  deleted r ⊆ args →
  remaining (rm_one r a) = filter (λ e, name e ∉ deleted (rm_one r a)) dir
  ∧ deleted (rm_one r a) ⊆ a :: args.
Proof.
  intros Hrem Hdel. unfold rm_one.
  assert (deleted r ⊆ a :: args) as Hdel'
    by (intros x Hx; right; by apply Hdel).
  case_bool_decide; simpl; [done|].
  destruct (list_find _ _) as [[i e]|] eqn:Hfind; [|done].
  destruct (removable e); simpl; [|done].
  split.
  - rewrite Hrem, list_filter_filter. apply list_filter_iff.
    intros x. rewrite not_elem_of_app, list_elem_of_singleton. tauto.
  - intros x [Hx|Hx]%elem_of_app; [by apply Hdel'|].
    apply list_elem_of_singleton in Hx as ->. by left.
Qed.

Lemma rm_rf_keeps args dir :
  remaining (rm_rf args dir)
  = filter (λ e, name e ∉ deleted (rm_rf args dir)) dir
  ∧ deleted (rm_rf args dir) ⊆ args.
Proof.
  unfold rm_rf.
  assert (∀ r done, remaining r = filter (λ e, name e ∉ deleted r) dir →
            deleted r ⊆ done →
            remaining (foldl rm_one r args)
            = filter (λ e, name e ∉ deleted (foldl rm_one r args)) dir
            ∧ deleted (foldl rm_one r args) ⊆ done ++ args) as Hgen.
  { induction args as [|a args IH]; intros r done Hrem Hdel; simpl.
    - by rewrite app_nil_r.
    - destruct (rm_one_keeps dir done r a Hrem Hdel) as [Hrem' Hdel'].
      destruct (IH (rm_one r a) (done ++ [a]) Hrem') as [? Hsub].
      + intros x [->|Hx]%Hdel'%elem_of_cons; apply elem_of_app;
          [right; by left|by left].
      + split; [done|]. by rewrite <- app_assoc in Hsub. }
  apply (Hgen _ []); simpl.
  - symmetry. apply filter_all, Forall_forall. intros e _. apply not_elem_of_nil.
  - done.
Qed.

(** Operands that name entries [rm] can remove are all removed, whatever
    else is in the directory. *)
Lemma rm_rf_removes_named args : ∀ dir acc ok,
  Forall (λ a, a ∈ name <$> dir ∧ a ≠ "." ∧ a ≠ ".."
               ∧ ∀ e, e ∈ dir → name e = a → removable e = true) args →
  NoDup args →
  foldl rm_one {| deleted := acc; rm_ok := ok; remaining := dir |} args
  = {| deleted := acc ++ args; rm_ok := ok;
       remaining := filter (λ e, name e ∉ args) dir |}.
Proof.
  induction args as [|a args IH]; intros dir acc ok Hargs Hnd.
  - simpl. rewrite app_nil_r, filter_all; [done|].
    apply Forall_forall. intros e _. apply not_elem_of_nil.
  - apply Forall_cons in Hargs as [(Ha & Hdot & Hdots & Hrm) Hargs].
    apply NoDup_cons in Hnd as [Hnew Hnd].
    apply list_elem_of_fmap in Ha as (e & -> & He).
    destruct (list_find_elem_of (λ e', name e' = name e) dir e He eq_refl)
      as [[i e'] Hfind].
    pose proof Hfind as (Hi & Hname & _)%list_find_Some.
    assert (removable e' = true) as Hre'.
    { apply Hrm; [|done]. by eapply list_elem_of_lookup_2. }
    simpl. unfold rm_one at 2. simpl.
    rewrite bool_decide_eq_false_2 by (by intros [?|?]).
    rewrite Hfind, Hre'.
    rewrite IH; [| |done].
    + rewrite <- app_assoc. simpl. f_equal.
      rewrite list_filter_filter. apply list_filter_iff.
      intros x. rewrite not_elem_of_cons. tauto.
    + apply Forall_forall. intros a Ha.
      destruct (proj1 (Forall_forall _ _) Hargs a Ha) as (Hin & ? & ? & Hr).
      assert (a ≠ name e) as Hne by (intros ->; done).
      split; [|split; [done|split; [done|]]].
      * apply list_elem_of_fmap in Hin as (x & -> & Hx).
        apply list_elem_of_fmap_2, list_elem_of_filter. by split.
      * intros x [_ Hx]%list_elem_of_filter. by apply Hr.
Qed.

Lemma visible_not_dots n : ¬ hidden n → n ≠ "." ∧ n ≠ "..".
Proof. intros Hh. split; intros ->; by apply Hh. Qed.

Lemma plain_not_dots n : plain n → n ≠ "." ∧ n ≠ "..".
Proof. intros (_ & Hh & _). split; intros ->; done. Qed.

(** *** The eviction pass on a directory the shell enters *)

Section evict.

Context (m : machine) (cache_dir : string) (limit : nat) (dir : list entry).
Hypothesis cache_is_dir : at_cache m = Dir dir.
Hypothesis path_is_word : shell_word cache_dir = true.
Hypothesis names_differ : NoDup (name <$> dir).
Hypothesis all_listed : Forall (λ e, listed_on_a_line (name e)) dir.
Hypothesis old_well_behaved :
  Forall (λ e, plain (name e) ∧ removable e = true)
    (take (length dir - limit) (merge_sort ls_tr_before dir)).

Let listed : list entry := merge_sort ls_tr_before dir.
Let old : list entry := take (length dir - limit) listed.
Let recent : list entry := drop (length dir - limit) listed.

Lemma listed_dir : listed ≡ₚ dir.
Proof. apply merge_sort_Permutation. Qed.

Lemma listed_split : listed = old ++ recent.
Proof. subst old recent. by rewrite take_drop. Qed.

Lemma old_in_dir e : e ∈ old → e ∈ dir.
Proof.
  intros He. rewrite <- listed_dir, listed_split. apply elem_of_app. by left.
Qed.

Lemma ls_tr_all : ls_tr dir = name <$> listed.
Proof.
  unfold ls_tr. rewrite filter_all; [done|].
  eapply Forall_impl; [exact all_listed|].
  intros e [Hh _]. rewrite Hh. by intros [].
Qed.

Lemma xargs_args_evict : xargs_args limit dir = (name <$> old, true).
Proof.
  unfold xargs_args. rewrite ls_tr_all.
  rewrite head_all_but_last_lines.
  - rewrite length_fmap, <- fmap_take.
    rewrite (Permutation_length listed_dir).
    apply xargs_read_lines, Forall_fmap.
    eapply Forall_impl; [exact old_well_behaved|]. by intros e [? _].
  - apply Forall_fmap. rewrite listed_dir.
    eapply Forall_impl; [exact all_listed|]. by intros e [_ ?].
Qed.

Lemma NoDup_listed_names : NoDup (name <$> old ++ recent).
Proof. rewrite <- listed_split. by rewrite listed_dir. Qed.

Lemma os_system_evict :
  os_system m cache_dir (EvictExcess limit)
  = {| status := 0; removed := name <$> old;
       after := Dir (filter (λ e, name e ∉ name <$> old) dir) |}.
Proof.
  assert (existsb option_like (name <$> old) = false) as Hoperands.
  { apply not_true_is_false. intros (n & Hn & Hopt)%existsb_exists.
    apply list_elem_of_In, list_elem_of_fmap in Hn as (e & -> & He).
    destruct (proj1 (Forall_forall _ _) old_well_behaved e He)
      as [(_ & _ & Hno & _) _].
    congruence. }
  unfold os_system. rewrite cache_is_dir, path_is_word.
  unfold exit_code, removal. rewrite xargs_args_evict. simpl.
  unfold rm_rf_words. rewrite Hoperands.
  unfold rm_rf. rewrite rm_rf_removes_named; [done| |].
  - apply Forall_fmap, Forall_forall. intros e He. simpl.
    destruct (proj1 (Forall_forall _ _) old_well_behaved e He) as [Hp Hr].
    pose proof (old_in_dir e He) as Hd.
    destruct (plain_not_dots _ Hp) as [? ?].
    split; [by apply list_elem_of_fmap_2|].
    split; [done|]. split; [done|].
    intros e' He' Hname.
    by rewrite (NoDup_fmap_same name dir e' e names_differ He' Hd Hname).
  - pose proof NoDup_listed_names as H. rewrite fmap_app in H.
    by apply NoDup_app in H as [? _].
Qed.

Lemma after_evict :
  filter (λ e, name e ∉ name <$> old) dir ≡ₚ recent.
Proof.
  rewrite <- listed_dir, listed_split, filter_app.
  pose proof NoDup_listed_names as H. rewrite fmap_app in H.
  apply NoDup_app in H as (_ & Hdisj & _).
  rewrite filter_none, filter_all; [done| |].
  - apply Forall_forall. intros e He Hin.
    apply (Hdisj (name e) Hin). by apply list_elem_of_fmap_2.
  - apply Forall_forall. intros e He Hnot. apply Hnot.
    by apply list_elem_of_fmap_2.
Qed.

End evict.

(** Between the [k] first and the others of a directory listed by
    [ls -tr], with modification times that all differ. *)
Lemma listed_older_newer k dir a b :
  NoDup (mtime <$> dir) →
  a ∈ take k (merge_sort ls_tr_before dir) →
  b ∈ drop k (merge_sort ls_tr_before dir) →
  (mtime a < mtime b)%Z.
Proof.
  intros Htimes Ha Hb.
  set (listed := merge_sort ls_tr_before dir) in *.
  assert (listed ≡ₚ dir) as Hperm by apply merge_sort_Permutation.
  assert (StronglySorted ls_tr_before listed) as Hsorted
    by (apply StronglySorted_merge_sort; apply _).
  assert (ls_tr_before a b) as Hab.
  { rewrite <- (take_drop k listed) in Hsorted.
    by eapply StronglySorted_app_1_elem_of. }
  apply ls_tr_before_mtime in Hab.
  destruct (decide (mtime a = mtime b)) as [Heq|]; [|lia].
  assert (a = b) as ->.
  { apply (NoDup_fmap_same mtime dir); [done| | |done];
      rewrite <- Hperm, <- (take_drop k listed), elem_of_app; auto. }
  assert (NoDup (take k listed ++ drop k listed)) as Hnd.
  { rewrite take_drop, Hperm. by eapply NoDup_fmap_1. }
  apply NoDup_app in Hnd as (_ & Hdisj & _). by destruct (Hdisj b).
Qed.

(** What [ls -tr] lists before the last [limit] is outdated. *)
Lemma listed_old_outdated limit dir e :
  NoDup (mtime <$> dir) →
  e ∈ take (length dir - limit) (merge_sort ls_tr_before dir) →
  e ∈ dir ∧ outdated limit dir e.
Proof.
  intros Htimes He.
  set (k := length dir - limit) in *.
  set (listed := merge_sort ls_tr_before dir) in *.
  assert (listed ≡ₚ dir) as Hperm by apply merge_sort_Permutation.
  split.
  { rewrite <- Hperm, <- (take_drop k listed). apply elem_of_app. by left. }
  assert (limit ≤ length dir) as Hlen.
  { destruct (decide (limit ≤ length dir)) as [|Hn]; [done|].
    replace k with 0 in He by (subst k; lia).
    by apply elem_of_nil in He. }
  unfold outdated.
  rewrite <- Hperm, <- (take_drop k listed), filter_app, length_app.
  rewrite (filter_all _ (drop k listed)).
  - rewrite length_drop, (Permutation_length Hperm). subst k. lia.
  - apply Forall_forall. intros b Hb.
    by apply (listed_older_newer k dir).
Qed.

(** Claim C5 as it is stated does not hold.  Of thirteen entries with
    different modification times, the oldest under a name that starts with a
    dot, none is deleted, because [ls] lists only twelve.  With a blank in
    the name of the oldest, or with an oldest entry that [rm] cannot
    remove, thirteen are left as well. *)
Lemma hidden_entry_survives :
  shell_word "/srv/static/cache" = true
  ∧ NoDup (name <$> updates_with_dot_name)
  ∧ NoDup (mtime <$> updates_with_dot_name)
  ∧ ¬ evicts_to_limit (machine_with updates_with_dot_name) "/srv/static/cache"
  ∧ ¬ evicts_to_limit (machine_with updates_with_blank_name)
        "/srv/static/cache"
  ∧ ¬ evicts_to_limit (machine_with updates_with_stuck_entry)
        "/srv/static/cache".
Proof.
  split; [reflexivity|].
  split; [compute_done|].
  split; [compute_done|].
  split_and!; intros H;
    destruct (H _ eq_refl) as [Hmany _];
    destruct Hmany as (kept & Hafter & Hlen & _);
    try (vm_compute; lia);
    vm_compute in Hafter; injection Hafter as <-; vm_compute in Hlen;
    discriminate.
Qed.

(** Claim C5, amended.  The cache path is one plain word for the shell and
    leads to a directory; its entries have different names and modification
    times, none with a leading dot or a newline in its name; those that are
    not among the 12 most recently modified have plain names (no leading
    dash, no white space, quote or backslash) and can be removed.  Then the
    pass succeeds; with more than 12 entries it leaves exactly the 12 most
    recently modified ones, and with 12 or fewer it leaves all.  What it
    deletes are the oldest entries, the oldest first. *)
Theorem evict_excess_keeps_newest m cache_dir dir :
  at_cache m = Dir dir → shell_word cache_dir = true →
  NoDup (name <$> dir) → NoDup (mtime <$> dir) →
  Forall (λ e, listed_on_a_line (name e)) dir →
  (∀ e, e ∈ dir → outdated CACHED_ENTRIES dir e →
        plain (name e) ∧ removable e = true) →
  let r := os_system m cache_dir (EvictExcess CACHED_ENTRIES) in
  status r = 0%Z
  ∧ evicts_to_limit m cache_dir
  ∧ ∃ old kept,
      removed r = name <$> old
      ∧ after r = Dir kept
      ∧ old ++ kept ≡ₚ dir
      ∧ length old = length dir - CACHED_ENTRIES
      ∧ StronglySorted (λ a b, (mtime a < mtime b)%Z) old
      ∧ ∀ a b, a ∈ old → b ∈ kept → (mtime a < mtime b)%Z.
Proof.
  intros Hm Hpath Hnames Htimes Hlisted Hwb r.
  set (listed := merge_sort ls_tr_before dir).
  set (k := length dir - CACHED_ENTRIES).
  set (kept := filter (λ e, name e ∉ name <$> take k listed) dir).
  assert (listed ≡ₚ dir) as Hperm by apply merge_sort_Permutation.
  assert (StronglySorted ls_tr_before listed) as Hsorted
    by (apply StronglySorted_merge_sort; apply _).
  assert (Forall (λ e, plain (name e) ∧ removable e = true) (take k listed))
    as Hold.
  { apply Forall_forall. intros e He.
    destruct (listed_old_outdated CACHED_ENTRIES dir e Htimes He).
    by apply Hwb. }
  assert (r = {| status := 0; removed := name <$> take k listed;
                 after := Dir kept |})
    as Hr by (by apply os_system_evict).
  assert (kept ≡ₚ drop k listed) as Hkept by (by apply after_evict).
  assert (∀ a b, a ∈ take k listed → b ∈ drop k listed →
            (mtime a < mtime b)%Z) as Hlt.
  { intros a b. by apply listed_older_newer. }
  split; [by rewrite Hr|]. split.
  - intros dir' Hdir'. rewrite Hm in Hdir'. injection Hdir' as <-.
    cbn zeta. fold r. rewrite Hr. cbn [after]. split.
    + intros Hmany. exists kept. split; [done|]. split; [|split].
      * rewrite Hkept, length_drop, (Permutation_length Hperm).
        subst k. lia.
      * subst kept. by intros e [_ ?]%list_elem_of_filter.
      * intros e e' He He' Hnot.
        apply Hlt; [|by rewrite <- Hkept].
        rewrite <- Hperm, <- (take_drop k listed), elem_of_app in He'.
        destruct He' as [?|Hdrop]; [done|].
        by rewrite <- Hkept in Hdrop.
    + intros Hfew. f_equal. subst kept.
      replace k with 0 by (subst k; lia). simpl.
      apply filter_all, Forall_forall. intros e _. apply not_elem_of_nil.
  - exists (take k listed), kept. split; [by rewrite Hr|].
    split; [by rewrite Hr|].
    split; [by rewrite Hkept, take_drop|].
    split; [rewrite length_take, (Permutation_length Hperm); subst k; lia|].
    split.
    + assert (StronglySorted ls_tr_before (take k listed)) as Hs.
      { rewrite <- (take_drop k listed) in Hsorted.
        by eapply StronglySorted_app_1_l. }
      assert (∀ a, a ∈ take k listed → a ∈ dir) as Hin.
      { intros a Ha. rewrite <- Hperm, <- (take_drop k listed), elem_of_app.
        by left. }
      assert (NoDup (take k listed)) as Hnd.
      { apply (sublist_NoDup _ listed); [|apply sublist_take].
        rewrite Hperm. by eapply NoDup_fmap_1. }
      revert Hs Hin Hnd. generalize (take k listed).
      induction 1 as [|a l Hl IH Ha]; intros Hin Hnd; [constructor|].
      apply NoDup_cons in Hnd as [Hal Hnd]. constructor.
      * apply IH; [|done]. intros b Hb. apply Hin. by right.
      * apply Forall_forall. intros b Hb.
        pose proof (ls_tr_before_mtime a b
                      (proj1 (Forall_forall _ _) Ha b Hb)) as Hle.
        destruct (decide (mtime a = mtime b)) as [Heq|]; [|lia].
        exfalso. apply Hal.
        rewrite (NoDup_fmap_same mtime dir a b); [done|done| | |done];
          apply Hin; [by left|by right].
    + intros a b Ha Hb. apply Hlt; [done|by rewrite <- Hkept].
Qed.

(** Thirteen plain entries. *)
Lemma evict_excess_keeps_newest_witness :
  status (os_system (machine_with updates) "/srv/static/cache"
            (EvictExcess CACHED_ENTRIES)) = 0%Z
  ∧ evicts_to_limit (machine_with updates) "/srv/static/cache".
Proof.
  destruct (evict_excess_keeps_newest (machine_with updates)
              "/srv/static/cache" updates) as (H1 & H2 & _).
  - reflexivity.
  - reflexivity.
  - compute_done.
  - compute_done.
  - compute_done.
  - apply (proj1 (Forall_forall
                    (λ e, outdated CACHED_ENTRIES updates e →
                          plain (name e) ∧ removable e = true) updates)).
    compute_done.
  - exact (conj H1 H2).
Defined.

(** *** The block of lines 483-501 *)

Lemma status_of_failed_rm m cache_dir c dir :
  at_cache m = Dir dir → shell_word cache_dir = true →
  rm_ok (removal m c dir) = false →
  status (os_system m cache_dir c) ≠ 0%Z.
Proof.
  intros Hm Hpath H. unfold os_system. rewrite Hm, Hpath. cbn [status].
  destruct c as [|limit]; unfold exit_code; rewrite H; [lia|].
  destruct ((xargs_args limit dir).2); lia.
Qed.

Lemma cache_setup_found m cache_dir (clear_cache : bool) :
  at_cache m ≠ Missing →
  let cmd := if clear_cache then ClearAll else EvictExcess CACHED_ENTRIES in
  let said := if clear_cache then "Failed to clear the cache with "
              else "Failed to clean up old delta cache files with " in
  cache_setup m cache_dir clear_cache
  = if decide (status (os_system m cache_dir cmd) ≠ 0%Z)
    then {| effects := [System cmd; Log (said +:+ cmd_text cache_dir cmd)];
            cache := after (os_system m cache_dir cmd);
            result := Raise (SystemExit 1) |}
    else {| effects := [System cmd];
            cache := after (os_system m cache_dir cmd);
            result := Return () |}.
Proof.
  intros Hm. unfold cache_setup.
  destruct (at_cache m); [done| |]; by destruct clear_cache.
Qed.

(** Claim C6.  Over something that exists at the cache path, exactly one
    of the two commands is run, the one the option selects.  When its
    status is not 0 the block logs the failure and ends in [sys.exit(1)],
    and the status is not 0 when [rm] fails in a command that is followed,
    be it the full wipe or the eviction; the block goes on only after
    status 0.  When nothing is at the path no command is run: the
    directory is made. *)
Theorem cache_setup_fatal_on_failure (m : machine) (cache_dir : string)
    (clear_cache : bool) :
  let cmd := if clear_cache then ClearAll else EvictExcess CACHED_ENTRIES in
  let said := if clear_cache then "Failed to clear the cache with "
              else "Failed to clean up old delta cache files with " in
  let r := cache_setup m cache_dir clear_cache in
  let fatal := result r = Raise (SystemExit 1)
               ∧ effects r = [System cmd;
                              Log (said +:+ cmd_text cache_dir cmd)] in
  (at_cache m ≠ Missing →
     (status (os_system m cache_dir cmd) ≠ 0%Z → fatal)
     ∧ (∀ dir, at_cache m = Dir dir → shell_word cache_dir = true →
               rm_ok (removal m cmd dir) = false → fatal)
     ∧ (result r = Return () →
        status (os_system m cache_dir cmd) = 0%Z ∧ effects r = [System cmd])
     ∧ (result r = Return () ∨ result r = Raise (SystemExit 1))
     ∧ filter is_System (effects r) = [System cmd])
  ∧ (at_cache m = Missing → effects r = [Makedirs] ∧ result r = Return ()).
Proof.
  intros cmd said r fatal. split.
  - intros Hm.
    pose proof (cache_setup_found m cache_dir clear_cache Hm) as Hr.
    cbn zeta in Hr. fold cmd said r in Hr.
    assert (status (os_system m cache_dir cmd) ≠ 0%Z → fatal) as Hfatal.
    { intros Hst. subst fatal. rewrite Hr. by rewrite decide_True. }
    split; [done|]. split; [|split; [|split]].
    + intros dir Hdir Hpath Hrm.
      by apply Hfatal, (status_of_failed_rm m cache_dir cmd dir).
    + rewrite Hr. case_decide as Hst; [done|].
      intros _. split; [|done].
      by destruct (decide (status (os_system m cache_dir cmd) = 0%Z)).
    + rewrite Hr. case_decide; auto.
    + rewrite Hr. by case_decide.
  - intros Hm. subst r. unfold cache_setup. by rewrite Hm.
Qed.

(** The oldest of thirteen entries cannot be removed. *)
Lemma cache_setup_fatal_on_failure_witness :
  let r := cache_setup (machine_with updates_with_stuck_entry)
             "/srv/static/cache" false in
  result r = Raise (SystemExit 1)
  ∧ effects r
    = [System (EvictExcess CACHED_ENTRIES);
       Log ("Failed to clean up old delta cache files with "
            +:+ cmd_text "/srv/static/cache" (EvictExcess CACHED_ENTRIES))].
Proof.
  destruct (cache_setup_fatal_on_failure
              (machine_with updates_with_stuck_entry)
              "/srv/static/cache" false) as [H _].
  destruct H as (_ & H & _); [done|].
  apply (H updates_with_stuck_entry); reflexivity.
Defined.

End cache.

(** ** The override of the next update *)

Section api.

Import Api Examples.

Implicit Types (s label : string) (c : ascii).

(** *** [strip] *)

Lemma rstrip_empty s : rstrip s = EmptyString ↔ whitespace_only s = true.
Proof.
  induction s as [|c s IH]; simpl; [done|].
  destruct (rstrip s) as [|c' r].
  - rewrite (proj1 IH eq_refl), andb_true_r. by destruct (Ascii.is_space c).
  - destruct (whitespace_only s).
    + by pose proof (proj2 IH eq_refl).
    + by rewrite andb_false_r.
Qed.

Lemma lstrip_empty s : lstrip s = EmptyString ↔ whitespace_only s = true.
Proof.
  induction s as [|c s IH]; simpl; [done|].
  destruct (Ascii.is_space c); simpl; [done|]. done.
Qed.

Lemma rstrip_split s :
  ∃ r, s = rstrip s +:+ r ∧ whitespace_only r = true.
Proof.
  induction s as [|c s (r & Hs & Hr)]; simpl.
  - by exists EmptyString.
  - destruct (rstrip s) as [|c' t] eqn:Ht.
    + destruct (Ascii.is_space c) eqn:Hc.
      * exists (String c s). split; [done|]. simpl. rewrite Hc. simpl.
        by apply rstrip_empty.
      * exists r. split; [|done]. rewrite app_String. by f_equal.
    + exists r. split; [|done]. rewrite app_String. by f_equal.
Qed.

Lemma lstrip_split s :
  ∃ l, s = l +:+ lstrip s ∧ whitespace_only l = true.
Proof.
  induction s as [|c s (l & Hs & Hl)]; simpl.
  - by exists EmptyString.
  - destruct (Ascii.is_space c) eqn:Hc.
    + exists (String c l). rewrite app_String. split; [by f_equal|].
      simpl. by rewrite Hc.
    + by exists EmptyString.
Qed.

Lemma rstrip_last s c :
  last_char (rstrip s) = Some c → Ascii.is_space c = false.
Proof.
  induction s as [|c' s IH]; simpl; [done|].
  destruct (rstrip s) as [|c'' t] eqn:Ht.
  - destruct (Ascii.is_space c') eqn:Hc; simpl; [done|]. congruence.
  - done.
Qed.

Lemma lstrip_first s c :
  first_char (lstrip s) = Some c → Ascii.is_space c = false.
Proof.
  induction s as [|c' s IH]; simpl; [done|].
  destruct (Ascii.is_space c') eqn:Hc; simpl; [done|]. congruence.
Qed.

Lemma lstrip_last s c :
  last_char (lstrip s) = Some c → last_char s = Some c.
Proof.
  induction s as [|c' s IH]; simpl; [done|].
  destruct (Ascii.is_space c') eqn:Hc; [|done].
  intros H. specialize (IH H). destruct s; [done|done].
Qed.

Lemma whitespace_only_app s t :
  whitespace_only (s +:+ t) = whitespace_only s && whitespace_only t.
Proof.
  induction s as [|c s IH]; [done|].
  rewrite app_String. simpl. by rewrite IH, andb_assoc.
Qed.

Lemma strip_empty s : strip s = EmptyString ↔ whitespace_only s = true.
Proof.
  unfold strip. rewrite lstrip_empty.
  destruct (rstrip_split s) as (r & Hs & Hr).
  rewrite Hs at 2. rewrite whitespace_only_app, Hr, andb_true_r. done.
Qed.

Lemma strip_split s :
  ∃ l r, s = l +:+ strip s +:+ r
         ∧ whitespace_only l = true ∧ whitespace_only r = true.
Proof.
  destruct (rstrip_split s) as (r & Hs & Hr).
  destruct (lstrip_split (rstrip s)) as (l & Ht & Hl).
  exists l, r. split; [|done].
  unfold strip. by rewrite <- app_app, <- Ht.
Qed.

Lemma strip_ends s c :
  first_char (strip s) = Some c ∨ last_char (strip s) = Some c →
  Ascii.is_space c = false.
Proof.
  unfold strip. intros [H|H].
  - by eapply lstrip_first.
  - by eapply rstrip_last, lstrip_last.
Qed.

(** *** The handler *)

Lemma setnextupdate_cases `{Updater R} ip req n (updater : R) :
  Content_Length req = Some n →
  setnextupdate ip req updater
  = if whitespace_only (read n (rfile req))
    then (Raise (HTTPError 400 "No label provided."), updater)
    else HandleSetUpdatePing ip (strip (read n (rfile req))) updater.
Proof.
  intros Hn. unfold setnextupdate. rewrite Hn.
  destruct (read n (rfile req)) as [|c label] eqn:Hl; [done|].
  destruct (strip (String c label)) as [|c' t] eqn:Hs.
  - by rewrite (proj1 (strip_empty _) Hs).
  - destruct (whitespace_only (String c label)) eqn:Hw; [|done].
    apply strip_empty in Hw. congruence.
Qed.

(** Claim C7.  The label handed to the registry is the body without the
    white space around it: the body is white space, the label, white space,
    and the label neither starts nor ends with white space.  It is stored as
    the pending override of the host.  A body that is empty or all white
    space gives HTTP error 400, and the updater, so every pending override,
    stays as it was, whatever [HandleSetUpdatePing] would do. *)
Theorem setnextupdate_trims_label `{Updater R} ip req n (updater : R) :
  Content_Length req = Some n →
  let label := read n (rfile req) in
  (∃ l r, label = l +:+ strip label +:+ r
          ∧ whitespace_only l = true ∧ whitespace_only r = true)
  ∧ (∀ c, first_char (strip label) = Some c ∨ last_char (strip label) = Some c →
       Ascii.is_space c = false)
  ∧ (whitespace_only label = false →
       strip label ≠ EmptyString
       ∧ setnextupdate ip req updater
         = HandleSetUpdatePing ip (strip label) updater
       ∧ ∀ hosts : gmap string HostRecord,
           pending ip (setnextupdate ip req hosts).2 = Some (strip label))
  ∧ (whitespace_only label = true →
       setnextupdate ip req updater
       = (Raise (HTTPError 400 "No label provided."), updater)
       ∧ ∀ hosts : gmap string HostRecord,
           (setnextupdate ip req hosts).2 = hosts).
Proof.
  intros Hn label. split; [apply strip_split|].
  split; [apply strip_ends|]. split.
  - intros Hw. split; [|split].
    + intros Hs%strip_empty. fold label in Hs. congruence.
    + rewrite (setnextupdate_cases _ _ n) by done. fold label. by rewrite Hw.
    + intros hosts. rewrite (setnextupdate_cases _ _ n) by done.
      fold label. rewrite Hw. unfold pending. simpl.
      unfold set_forced_label. by rewrite lookup_insert_eq.
  - intros Hw. split.
    + rewrite (setnextupdate_cases _ _ n) by done. fold label. by rewrite Hw.
    + intros hosts. rewrite (setnextupdate_cases _ _ n) by done.
      fold label. by rewrite Hw.
Qed.

(** Scenario B of the specification. *)
Lemma setnextupdate_trims_label_witness :
  pending "10.0.0.5"
    (setnextupdate "10.0.0.5" padded_label (∅ : gmap string HostRecord)).2
  = Some "R1-100"
  ∧ setnextupdate "10.0.0.5" blank_label one_override
    = (Raise (HTTPError 400 "No label provided."), one_override).
Proof.
  split.
  - destruct (setnextupdate_trims_label "10.0.0.5" padded_label 10
                (∅ : gmap string HostRecord) eq_refl) as (_ & _ & H & _).
    destruct (H eq_refl) as (_ & _ & Hp). exact (Hp ∅).
  - destruct (setnextupdate_trims_label "10.0.0.5" blank_label 3
                one_override eq_refl) as (_ & _ & _ & H).
    exact (proj1 (H eq_refl)).
Defined.

End api.

(** ** Symbolication *)

Section symbolicate.

Import Symbolicate Examples.

Implicit Types (file local : string).

Lemma substring_skip n file : String.substring 0 n file +:+ skip n file = file.
Proof.
  revert file. induction n as [|n IH]; intros [|c file]; simpl; try done.
  by rewrite app_String, IH.
Qed.

Lemma length_skip n file :
  String.length (skip n file) = String.length file - n.
Proof.
  revert file. induction n as [|n IH]; intros [|c file]; simpl; try done.
Qed.

Lemma substring_empty n file :
  0 < n → String.substring 0 n file = EmptyString → file = EmptyString.
Proof. intros Hn. destruct n; [lia|]. by destruct file. Qed.

Lemma chunk_pos : 0 < chunk.
Proof. unfold chunk. lia. Qed.

(** The loop ends, with the whole upload in the temporary file. *)
Lemma copy_loop_all fuel : ∀ file local,
  String.length file < fuel →
  copy_loop fuel file local = Some (local +:+ file).
Proof.
  induction fuel as [|fuel IH]; intros file local Hlen; [lia|].
  cbn [copy_loop].
  destruct (String.substring 0 chunk file) as [|c data] eqn:Hdata.
  - apply substring_empty in Hdata as ->; [|apply chunk_pos].
    by rewrite app_empty_r.
  - rewrite IH.
    + by rewrite app_app, <- Hdata, substring_skip.
    + rewrite length_skip. pose proof chunk_pos.
      destruct file; simpl in *; [|lia].
      by destruct chunk.
Qed.

(** Claim C9.  [symbolicate_dump] always comes to an end; it raises exactly
    when the return code of [minidump_stackwalk] is not 0, and returns the
    captured standard output when it is 0. *)
Theorem symbolicate_dump_raises_iff_nonzero
    (minidump_stackwalk : string → string → exited)
    (static_dir minidump : string) :
  let ended := minidump_stackwalk minidump (static_dir +:+ "/debug/breakpad") in
  ∃ res,
    symbolicate_dump minidump_stackwalk static_dir minidump = Some res
    ∧ ((∃ e, res = Raise e) ↔ returncode ended ≠ 0%Z)
    ∧ (returncode ended = 0%Z → res = Return (stdout ended))
    ∧ (returncode ended ≠ 0%Z →
         res = Raise (DevServerError
                 ("Can't generate stack trace: " +:+ stderr ended +:+ " (rc="
                  +:+ pretty (returncode ended) +:+ ")"))).
Proof.
  intros ended. unfold symbolicate_dump.
  rewrite copy_loop_all by lia.
  change (EmptyString +:+ minidump) with minidump. simpl. fold ended.
  destruct (decide (returncode ended ≠ 0%Z)) as [Hrc|Hrc].
  - eexists. split; [reflexivity|]. split; [|split].
    + split; [done|]. intros _. by eexists.
    + done.
    + done.
  - eexists. split; [reflexivity|]. split; [|split].
    + split; [by intros [e ?]|done].
    + done.
    + done.
Qed.

(** A run of the program that ends with return code 1. *)
Lemma symbolicate_dump_raises_iff_nonzero_witness :
  symbolicate_dump no_symbols "/srv/static" "MDMP"
  = Some (Raise (DevServerError
            "Can't generate stack trace: no symbols (rc=1)")).
Proof.
  destruct (symbolicate_dump_raises_iff_nonzero no_symbols "/srv/static"
              "MDMP") as (res & -> & _ & _ & H).
  f_equal. apply H. discriminate.
Defined.

End symbolicate.

(** * Further properties *)

(** ** The handlers of [DevServerRoot] *)

Section handlers.

Import Coordinator Handlers Examples.

Implicit Types (s : state) (key : string) (kwargs : gmap string string).

(** X1.  [download], [wait_for_status] and [stage_debug] turn down a request
    without [archive_url], or with an empty one, with the same
    [DevServerError]; the dictionary and the staged builds stay as they
    were, no downloader is asked to do anything, and all [download] leaves
    behind is the idle object it made first. *)
Theorem missing_archive_url_rejected kwargs launch SymbolDownload s :
  kwargs !! "archive_url" = None ∨ kwargs !! "archive_url" = Some EmptyString →
  let err : outcome string :=
    Raise (DevServerError "Didn't specify the archive_url in request") in
  download kwargs launch s
  = (err, {| _downloader_dict := _downloader_dict s;
             heap := heap s ++ [Idle];
             static_dir := static_dir s |})
  ∧ wait_for_status kwargs s = Some (err, s)
  ∧ stage_debug SymbolDownload kwargs = err.
Proof.
  intros Hk err.
  assert (falsy (kwargs !! "archive_url") = true) as Hf
    by (by destruct Hk as [-> | ->]).
  split; [by rewrite download_no_key|].
  unfold wait_for_status, stage_debug. by rewrite Hf.
Qed.

Lemma missing_archive_url_rejected_witness :
  wait_for_status ∅ (run staged_once init)
  = Some (Raise (DevServerError "Didn't specify the archive_url in request"),
          run staged_once init)
  ∧ stage_debug (λ _, Return "Success") {[ "archive_url" := EmptyString ]}
    = Raise (DevServerError "Didn't specify the archive_url in request").
Proof.
  split.
  - apply (missing_archive_url_rejected ∅ (Return "Success")
             (λ _, Return "Success") (run staged_once init)).
    left. reflexivity.
  - apply (missing_archive_url_rejected {[ "archive_url" := EmptyString ]}
             (Return "Success") (λ _, Return "Success") init).
    right. reflexivity.
Defined.

(** X2.  A [download] for one key changes neither what is tracked for any
    other key nor any object that was there before the call, whether the
    launch succeeds or not. *)
Theorem download_leaves_other_keys kwargs key key' launch s :
  kwargs !! "archive_url" = Some key → key' ≠ key →
  let s' := (download kwargs launch s).2 in
  tracked key' s' = tracked key' s
  ∧ _downloader_dict s' !! key' = _downloader_dict s !! key'
  ∧ static_dir s' = static_dir s
  ∧ ∀ d, d < length (heap s) → heap s' !! d = heap s !! d.
Proof.
  intros Hk Hne s'. subst s'.
  destruct key as [|c key].
  - rewrite download_no_key by (by rewrite Hk). simpl.
    split; [done|]. split; [done|]. split; [done|].
    intros d Hd. by rewrite lookup_app_l.
  - destruct launch as [obj|e].
    + rewrite (download_launched _ (String c key)) by done.
      unfold tracked. simpl. rewrite lookup_insert_ne by done.
      split; [done|]. split; [done|]. split; [done|].
      intros d Hd. by rewrite lookup_app_l.
    + rewrite (download_not_launched _ (String c key)) by done.
      unfold tracked. simpl. rewrite lookup_insert_ne by done.
      split; [done|]. split; [done|]. split; [done|].
      intros d Hd. by rewrite lookup_app_l.
Qed.

Lemma download_leaves_other_keys_witness :
  tracked build_A
    (download (request "gs://bucket/build-B") (Return "Success")
       (run staged_once init)).2
  = tracked build_A (run staged_once init).
Proof.
  apply (download_leaves_other_keys (request "gs://bucket/build-B")
           "gs://bucket/build-B" build_A (Return "Success")
           (run staged_once init));
    [reflexivity | discriminate].
Defined.

(** X3.  A [wait_for_status] that returns has neither added nor removed a
    key, has made or changed no object and has staged nothing; in the
    dictionary it has at most put [None] where the key it was asked for had
    an object. *)
Theorem wait_for_status_only_resets kwargs s r s' :
  wait_for_status kwargs s = Some (r, s') →
  dom (_downloader_dict s') = dom (_downloader_dict s)
  ∧ heap s' = heap s
  ∧ static_dir s' = static_dir s
  ∧ ∀ key, _downloader_dict s' !! key = _downloader_dict s !! key
           ∨ (kwargs !! "archive_url" = Some key
              ∧ is_Some (tracked key s)
              ∧ _downloader_dict s' !! key = Some None).
Proof.
  unfold wait_for_status.
  destruct (falsy (kwargs !! "archive_url")) eqn:Hf.
  { intros [= <- <-]. repeat split; auto. }
  destruct (falsy_false_key _ Hf) as (k & Hk & Hne). rewrite Hk. simpl.
  destruct (default None (_downloader_dict s !! k)) as [d|] eqn:Hd.
  - destruct (heap s !! d ≫= _); [|done]. intros [= <- <-]. simpl.
    assert (is_Some (_downloader_dict s !! k)) as Hsome.
    { destruct (_downloader_dict s !! k); [by eexists|done]. }
    split; [|split; [done|split; [done|]]].
    + rewrite dom_insert_L. apply subseteq_union_1_L, singleton_subseteq_l.
      by apply elem_of_dom.
    + intros key. destruct (decide (k = key)) as [<-|].
      * right. split; [done|]. split; [|by rewrite lookup_insert_eq].
        unfold tracked. rewrite Hd. by eexists.
      * left. by rewrite lookup_insert_ne.
  - destruct (BuildStaged _ _); intros [= <- <-]; repeat split; auto.
Qed.

Lemma wait_for_status_only_resets_witness :
  dom (_downloader_dict (set_dict build_A None (run fetched init)))
  = dom (_downloader_dict (run fetched init)).
Proof.
  apply (wait_for_status_only_resets (request build_A) (run fetched init)
           (Return "Success")).
  reflexivity.
Defined.

(** X4.  When [download] is called for a key whose task is still Running
    and the new launch raises, the exception reaches the caller and the key
    is bound to [None]: the Running task goes on untracked.  A
    [wait_for_status] for the key, which was blocked before, now returns at
    once, with the error [No download for the given archive_url found.] as
    long as the build is not staged. *)
Theorem failed_relaunch_untracks_running_task kwargs key d0 e s :
  kwargs !! "archive_url" = Some key → key ≠ EmptyString →
  tracked key s = Some d0 →
  heap s !! d0 = Some (Task key Running) →
  key ∉ static_dir s →
  let s' := (download kwargs (Raise e) s).2 in
  wait_for_status kwargs s = None
  ∧ (download kwargs (Raise e) s).1 = Raise e
  ∧ heap s' !! d0 = Some (Task key Running)
  ∧ _downloader_dict s' !! key = Some None
  ∧ wait_for_status kwargs s'
    = Some (Raise (DevServerError
                     "No download for the given archive_url found."), s').
Proof.
  intros Hk Hne Ht Hd0 Hst s'. subst s'.
  split.
  { rewrite (wait_for_status_tracked _ key d0) by done. by rewrite Hd0. }
  rewrite (download_not_launched _ key) by done. simpl.
  split; [done|].
  split; [by apply lookup_app_l_Some|].
  split; [by rewrite lookup_insert_eq|].
  rewrite (wait_for_status_fallback _ key) by
    (try done; unfold tracked; simpl; by rewrite lookup_insert_eq).
  unfold cache_answer, BuildStaged. simpl.
  by rewrite bool_decide_eq_false_2.
Qed.

Lemma failed_relaunch_untracks_running_task_witness :
  let s' := (download (request build_A) (Raise (Foreign "locked"))
               (run staged_once init)).2 in
  heap s' !! 0 = Some (Task build_A Running)
  ∧ wait_for_status (request build_A) s'
    = Some (Raise (DevServerError
                     "No download for the given archive_url found."), s').
Proof.
  destruct (failed_relaunch_untracks_running_task (request build_A) build_A 0
              (Foreign "locked") (run staged_once init))
    as (_ & _ & H1 & _ & H2);
    [reflexivity | discriminate | reflexivity | reflexivity | |].
  - apply (bool_decide_unpack _). vm_compute. exact I.
  - exact (conj H1 H2).
Defined.

(** X5.  However many times [build] is called, one [Builder] object is
    made, at the first call, and every call is handed to that object. *)
Theorem build_reuses_one_builder Build calls :
  let r := builds Build calls no_builder in
  Forall (λ b, b = 0) r.1
  ∧ made r.2 = (if calls is [] then 0 else 1)
  ∧ _builder r.2 = (if calls is [] then None else Some 0).
Proof.
  assert (∀ calls self, _builder self = Some 0 → made self = 1 →
            let r := builds Build calls self in
            Forall (λ b, b = 0) r.1 ∧ made r.2 = 1 ∧ _builder r.2 = Some 0)
    as Hlater.
  { clear calls. intros calls.
    induction calls as [|[board pkg] calls IH]; intros self Hb Hm; [done|].
    simpl. unfold build. rewrite Hb. simpl.
    specialize (IH self Hb Hm).
    destruct (builds Build calls self) as [bs self'].
    simpl in *. destruct IH as (? & ? & ?). rewrite Hb. simpl.
    by repeat constructor. }
  destruct calls as [|[board pkg] calls]; [done|].
  simpl. unfold build. simpl.
  specialize (Hlater calls {| _builder := Some 0; made := 1 |} eq_refl eq_refl).
  destruct (builds Build calls _) as [bs self'].
  simpl in *. destruct Hlater as (? & ? & ?). by repeat constructor.
Qed.

End handlers.

(** ** The cache commands on other directories *)

Section cache_commands.

Import Cache Examples Inputs.

Implicit Types (dir : list entry) (e : entry) (n : string).

(** X7.  On a cache path that is a plain word and leads to a directory,
    the full wipe [rm -rf cache_dir/*] never removes an entry whose name
    starts with a dot.  When every other entry can be removed, it succeeds,
    removes them all and leaves exactly the entries with a dot name. *)
Theorem clear_all_spares_dot_names m cache_dir dir :
  at_cache m = Dir dir → shell_word cache_dir = true →
  NoDup (name <$> dir) →
  let r := os_system m cache_dir ClearAll in
  ∃ left,
    after r = Dir left
    ∧ (∀ e, e ∈ dir → hidden (name e) → e ∈ left)
    ∧ (Forall (λ e, ¬ hidden (name e) → removable e = true) dir →
       status r = 0%Z
       ∧ removed r ≡ₚ filter (λ n, ¬ hidden n) (name <$> dir)
       ∧ left = filter (λ e, hidden (name e)) dir).
Proof.
  intros Hm Hpath Hnd r. subst r. unfold os_system. rewrite Hm, Hpath.
  eexists. split; [reflexivity|]. cbn [status removed].
  set (visible := filter (λ n, ¬ hidden n) (name <$> dir)).
  assert (merge_sort String.le visible ≡ₚ visible) as Hsort
    by apply merge_sort_Permutation.
  split.
  - intros e He Hh. unfold removal.
    destruct (rm_rf_keeps (glob_star dir) dir) as [-> Hsub].
    apply list_elem_of_filter. split; [|done].
    intros Hin%Hsub. unfold glob_star in Hin. fold visible in Hin.
    destruct (merge_sort String.le visible) as [|n ns] eqn:Hvis.
    + apply list_elem_of_singleton in Hin. by rewrite Hin in Hh.
    + rewrite Hsort in Hin. by apply list_elem_of_filter in Hin as [? _].
  - intros Hrm. unfold exit_code, removal, glob_star. fold visible.
    destruct (merge_sort String.le visible) as [|n ns] eqn:Hvis.
    + apply Permutation_nil_l in Hsort. symmetry in Hsort.
      assert (∀ e, e ∈ dir → hidden (name e)) as Hall.
      { intros e He. destruct (hidden (name e)) eqn:Hh; [done|].
        exfalso. eapply (filter_nil_not_elem_of _ _ (name e) Hsort).
        - by apply Is_true_false_2.
        - by apply list_elem_of_fmap_2. }
      unfold rm_rf. simpl. unfold rm_one. simpl.
      destruct (list_find _ dir) as [[i e]|] eqn:Hfind.
      { apply list_find_Some in Hfind as (Hi & Hname & _).
        apply list_elem_of_lookup_2, Hall in Hi. by rewrite Hname in Hi. }
      simpl. split; [done|]. split; [by rewrite Hsort|].
      symmetry. by apply filter_all, Forall_forall.
    + unfold rm_rf.
      rewrite rm_rf_removes_named.
      * simpl. split; [done|]. split; [done|].
        apply filter_iff_on. intros e He.
        rewrite Hsort. unfold visible. rewrite list_elem_of_filter.
        split.
        -- intros Hn. destruct (hidden (name e)) eqn:Hh; [done|].
           exfalso. apply Hn. split; [by apply Is_true_false_2|].
           by apply list_elem_of_fmap_2.
        -- intros Hh [Hv _]. done.
      * rewrite Hsort. apply Forall_forall.
        intros a [Hv Ha]%list_elem_of_filter.
        split; [done|]. destruct (visible_not_dots a Hv) as [? ?].
        split; [done|]. split; [done|].
        intros e He <-. by eapply (proj1 (Forall_forall _ _) Hrm).
      * rewrite Hsort. by apply NoDup_filter.
Qed.

Lemma clear_all_spares_dot_names_witness :
  ∃ left,
    after (os_system (machine_with updates_with_dot_name)
             "/srv/static/cache" ClearAll) = Dir left
    ∧ left = [Entry ".u01" 101 true].
Proof.
  destruct (clear_all_spares_dot_names (machine_with updates_with_dot_name)
              "/srv/static/cache" updates_with_dot_name)
    as (left & Hafter & _ & H); [reflexivity|reflexivity|compute_done|].
  destruct H as (_ & _ & H); [compute_done|].
  exists left. split; [exact Hafter|exact H].
Defined.

(** A directory that lists no more than [limit] names, none with a newline
    in it, is left alone by the eviction. *)
Lemma evict_under_limit m cache_dir limit dir :
  at_cache m = Dir dir → shell_word cache_dir = true →
  Forall (λ e, ¬ hidden (name e) →
               newline ∉ String.list_ascii_of_string (name e)) dir →
  length (filter (λ e, ¬ hidden (name e)) dir) ≤ limit →
  os_system m cache_dir (EvictExcess limit)
  = {| status := 0; removed := []; after := Dir dir |}.
Proof.
  intros Hm Hpath Hnl Hlen.
  assert (xargs_args limit dir = ([], true)) as Hargs.
  { unfold xargs_args, head_all_but_last.
    rewrite read_write_lines_back.
    - unfold ls_tr. rewrite length_fmap.
      rewrite (Permutation_length (merge_sort_Permutation _ _)).
      by replace (length (filter _ dir) - limit) with 0 by lia.
    - unfold ls_tr. apply Forall_fmap.
      rewrite (merge_sort_Permutation _ _).
      apply Forall_forall. intros e [Hv He]%list_elem_of_filter.
      by apply (proj1 (Forall_forall _ _) Hnl e He). }
  unfold os_system. rewrite Hm, Hpath.
  unfold exit_code, removal. by rewrite Hargs.
Qed.

(** X8.  When the cache path is a plain word and leads to a directory
    that lists at most 12 names (those with a dot in front are not listed),
    none of them with a newline in it, start-up without [--clear_cache]
    removes nothing, whatever else the names are made of, and goes on. *)
Theorem startup_keeps_small_cache m cache_dir dir :
  at_cache m = Dir dir → shell_word cache_dir = true →
  Forall (λ e, ¬ hidden (name e) →
               newline ∉ String.list_ascii_of_string (name e)) dir →
  length (filter (λ e, ¬ hidden (name e)) dir) ≤ CACHED_ENTRIES →
  cache_setup m cache_dir false
  = {| effects := [System (EvictExcess CACHED_ENTRIES)];
       cache := Dir dir;
       result := Return () |}.
Proof.
  intros Hm Hpath Hnl Hlen. unfold cache_setup. rewrite Hm.
  by rewrite (evict_under_limit _ _ _ _ Hm Hpath Hnl Hlen).
Qed.

Lemma startup_keeps_small_cache_witness :
  cache_setup (machine_with odd_names) "/srv/static/cache" false
  = {| effects := [System (EvictExcess CACHED_ENTRIES)];
       cache := Dir odd_names;
       result := Return () |}.
Proof.
  apply (startup_keeps_small_cache (machine_with odd_names)
           "/srv/static/cache" odd_names);
    [reflexivity|reflexivity|compute_done|compute_done].
Defined.

(** X9.  On a cache path that is a plain word and leads to a directory of
    plain, removable entries with different names, the eviction leaves at
    most 12 entries, and a second eviction right after it removes
    nothing. *)
Theorem evict_excess_twice m cache_dir dir :
  at_cache m = Dir dir → shell_word cache_dir = true →
  NoDup (name <$> dir) →
  Forall (λ e, plain (name e) ∧ removable e = true) dir →
  let r := os_system m cache_dir (EvictExcess CACHED_ENTRIES) in
  ∃ kept,
    after r = Dir kept
    ∧ length kept ≤ CACHED_ENTRIES
    ∧ os_system (with_cache (after r) m) cache_dir
        (EvictExcess CACHED_ENTRIES)
      = {| status := 0; removed := []; after := Dir kept |}.
Proof.
  intros Hm Hpath Hnames Hwb r.
  assert (Forall (λ e, listed_on_a_line (name e)) dir) as Hlisted.
  { eapply Forall_impl; [exact Hwb|]. intros e [(_ & ? & _ & Hp) _].
    split; [done|]. by apply all_plain_no_newline. }
  assert (Forall (λ e, plain (name e) ∧ removable e = true)
            (take (length dir - CACHED_ENTRIES)
               (merge_sort ls_tr_before dir))) as Hold.
  { apply Forall_take. by rewrite merge_sort_Permutation. }
  subst r.
  rewrite (os_system_evict m cache_dir CACHED_ENTRIES dir Hm Hpath Hnames
             Hlisted Hold).
  cbn [after]. eexists. split; [reflexivity|].
  assert (length (filter (λ e, name e ∉ name <$>
                     take (length dir - CACHED_ENTRIES)
                       (merge_sort ls_tr_before dir)) dir)
          ≤ CACHED_ENTRIES) as Hlen.
  { rewrite (after_evict CACHED_ENTRIES dir Hnames), length_drop.
    rewrite (Permutation_length (merge_sort_Permutation _ _)). lia. }
  split; [done|].
  apply evict_under_limit; [done|done| |].
  - apply Forall_forall. intros e [_ He]%list_elem_of_filter _.
    by destruct (proj1 (Forall_forall _ _) Hlisted e He).
  - etrans; [apply length_filter|done].
Qed.

Lemma evict_excess_twice_witness :
  ∃ kept,
    after (os_system (machine_with updates) "/srv/static/cache"
             (EvictExcess CACHED_ENTRIES)) = Dir kept
    ∧ length kept ≤ CACHED_ENTRIES.
Proof.
  destruct (evict_excess_twice (machine_with updates) "/srv/static/cache"
              updates) as (kept & H1 & H2 & _);
    [reflexivity|reflexivity|compute_done|compute_done|].
  exists kept. split; [exact H1|exact H2].
Defined.

End cache_commands.

(** ** The label of [setnextupdate] *)

Section label.

Import Api Examples.

Implicit Types (s body : string) (c : ascii).

Lemma rstrip_fixed s :
  (∀ c, last_char s = Some c → Ascii.is_space c = false) → rstrip s = s.
Proof.
  induction s as [|c s IH]; intros Hlast; [done|]. simpl.
  destruct s as [|c' s].
  - simpl. by rewrite (Hlast c).
  - rewrite IH by (intros c0 Hc0; by apply Hlast). done.
Qed.

Lemma lstrip_fixed s :
  (∀ c, first_char s = Some c → Ascii.is_space c = false) → lstrip s = s.
Proof. destruct s as [|c s]; [done|]. intros H. simpl. by rewrite (H c). Qed.

Lemma strip_strip s : strip (strip s) = strip s.
Proof.
  unfold strip.
  rewrite (rstrip_fixed (lstrip (rstrip s))).
  - apply lstrip_fixed. intros c. apply lstrip_first.
  - intros c Hc. by eapply rstrip_last, lstrip_last.
Qed.

Lemma read_whole body : read (String.length body) body = body.
Proof. unfold read. induction body as [|c body IH]; simpl; by f_equal. Qed.

Lemma read_front body extra :
  read (String.length body) (body +:+ extra) = body.
Proof.
  unfold read. induction body as [|c body IH].
  - by destruct extra.
  - rewrite app_String. simpl. by f_equal.
Qed.

(** X10.  White space around the label makes no difference to
    [setnextupdate]: a body and the same body without the white space at its
    two ends, each sent with its own length, get the same answer and leave
    the updater in the same state. *)
Theorem setnextupdate_ignores_padding `{Updater R} ip body (updater : R) :
  setnextupdate ip
    {| Content_Length := Some (String.length body); rfile := body |} updater
  = setnextupdate ip
      {| Content_Length := Some (String.length (strip body));
         rfile := strip body |} updater.
Proof.
  rewrite (setnextupdate_cases _ _ (String.length body)) by done.
  rewrite (setnextupdate_cases _ _ (String.length (strip body))) by done.
  simpl. rewrite !read_whole, strip_strip.
  destruct (whitespace_only body) eqn:Hw.
  - apply strip_empty in Hw. by rewrite Hw.
  - destruct (whitespace_only (strip body)) eqn:Hw'; [|done].
    apply strip_empty in Hw'. rewrite strip_strip in Hw'.
    apply strip_empty in Hw'. congruence.
Qed.

(** X11.  [setnextupdate] reads [Content-Length] bytes and no more: what
    follows them in the stream changes nothing, and with a length of 0 the
    answer is HTTP error 400 whatever the stream holds. *)
Theorem setnextupdate_reads_content_length `{Updater R} ip body extra
    (updater : R) :
  setnextupdate ip
    {| Content_Length := Some (String.length body);
       rfile := body +:+ extra |} updater
  = setnextupdate ip
      {| Content_Length := Some (String.length body); rfile := body |} updater
  ∧ setnextupdate ip {| Content_Length := Some 0; rfile := extra |} updater
    = (Raise (HTTPError 400 "No label provided."), updater).
Proof.
  split.
  - rewrite !(setnextupdate_cases _ _ (String.length body)) by done.
    simpl. by rewrite read_front, read_whole.
  - rewrite (setnextupdate_cases _ _ 0) by done. simpl.
    by destruct extra.
Qed.

End label.

(** ** The help pages *)

Section html.

Import Html.

Implicit Types (s line : string) (c : ascii) (ls : list string).

Lemma lstrip_shorter s : String.length (Api.lstrip s) ≤ String.length s.
Proof.
  induction s as [|c s IH]; simpl; [done|].
  destruct (Ascii.is_space c); simpl; lia.
Qed.

(** X12.  [_LeadingWhiteSpaceCount] counts exactly the characters that
    [lstrip] removes: the string is that many white space characters
    followed by its [lstrip], which does not start with white space. *)
Theorem leading_white_space_is_what_lstrip_removes s :
  let k := _LeadingWhiteSpaceCount s in
  s = String.substring 0 k s +:+ Api.lstrip s
  ∧ String.length (String.substring 0 k s) = k
  ∧ Api.whitespace_only (String.substring 0 k s) = true
  ∧ (∀ c, Api.first_char (Api.lstrip s) = Some c → Ascii.is_space c = false)
  ∧ (k = 0 ↔ Api.lstrip s = s).
Proof.
  induction s as [|c s IH]; [done|].
  cbn [_LeadingWhiteSpaceCount Api.lstrip].
  destruct (Ascii.is_space c) eqn:Hc.
  - destruct IH as (Hs & Hlen & Hws & Hfirst & _).
    cbn zeta. cbn [String.substring]. rewrite app_String.
    split; [by rewrite <- Hs|].
    split; [simpl; by rewrite Hlen|].
    split; [simpl; by rewrite Hc, Hws|].
    split; [done|].
    split; [done|]. intros Heq. exfalso.
    pose proof (lstrip_shorter s) as Hle.
    rewrite Heq in Hle. simpl in Hle. lia.
  - cbn zeta. cbn [String.substring].
    split; [done|]. split; [done|]. split; [done|].
    split; [|done]. intros c' [= <-]. done.
Qed.

Lemma one_line_app s t : one_line (s +:+ t) = one_line s && one_line t.
Proof.
  induction s as [|c s IH]; [done|].
  rewrite app_String. simpl. rewrite IH. by rewrite !andb_assoc.
Qed.

Lemma one_line_times s n : one_line s = true → one_line (times s n) = true.
Proof.
  intros Hs. induction n as [|n IH]; [done|].
  simpl. by rewrite one_line_app, Hs, IH.
Qed.

Lemma one_line_char c s :
  one_line (String c s) = true → c ≠ LF ∧ c ≠ CR ∧ one_line s = true.
Proof.
  simpl. intros [[H1 H2]%andb_prop H3]%andb_prop.
  apply negb_true_iff, bool_decide_eq_false in H1, H2. done.
Qed.

Lemma splitlines_one_line s : Forall (λ l, one_line l = true) (splitlines s).
Proof.
  induction s as [|c s IH]; simpl; [constructor|].
  destruct (decide (c = LF)) as [->|Hlf]; [by constructor|].
  destruct (decide (c = CR)) as [->|Hcr].
  - constructor; [done|].
    destruct s as [|c' s]; [constructor|].
    destruct (decide (c' = LF)) as [->|]; [|done].
    simpl in IH. by apply Forall_cons in IH as [_ ?].
  - destruct (splitlines s) as [|l ls]; constructor;
      try (by apply Forall_cons in IH as [_ ?]); try constructor.
    + simpl. by rewrite !bool_decide_eq_false_2.
    + apply Forall_cons in IH as [Hl _]. simpl.
      by rewrite !bool_decide_eq_false_2, Hl.
Qed.

Lemma splitlines_line line rest :
  one_line line = true →
  splitlines (line +:+ String LF rest) = line :: splitlines rest.
Proof.
  induction line as [|c line IH]; intros Hl; [done|].
  apply one_line_char in Hl as (Hlf & Hcr & Hl).
  rewrite app_String. simpl.
  rewrite !decide_False by done. by rewrite IH.
Qed.

Lemma splitlines_single line :
  one_line line = true → line ≠ EmptyString → splitlines line = [line].
Proof.
  induction line as [|c line IH]; intros Hl Hne; [done|].
  apply one_line_char in Hl as (Hlf & Hcr & Hl). simpl.
  rewrite !decide_False by done.
  destruct line as [|c' line]; [done|]. by rewrite IH.
Qed.

Lemma splitlines_join ls :
  Forall (λ l, one_line l = true ∧ l ≠ EmptyString) ls →
  splitlines (join (String LF EmptyString) ls) = ls.
Proof.
  induction 1 as [|l ls [Hl Hne] Hls IH]; [done|].
  destruct ls as [|l' ls].
  - simpl. by apply splitlines_single.
  - change (splitlines
              (l +:+ String LF (join (String LF EmptyString) (l' :: ls)))
            = l :: l' :: ls).
    rewrite splitlines_line by done. by rewrite IH.
Qed.

Lemma html_line_shape line :
  html_line line
  = "<BR>" +:+ times "&nbsp;" (_LeadingWhiteSpaceCount line) +:+ line.
Proof.
  unfold html_line. case_decide as Hk; [done|].
  by replace (_LeadingWhiteSpaceCount line) with 0 by lia.
Qed.

(** X13.  The page made of a docstring has one line for every line of the
    docstring, in the same order: [<BR>], then one [&nbsp;] per white space
    character the line starts with, then the line itself with nothing left
    out. *)
Theorem help_page_keeps_the_lines doc :
  splitlines (_PrintDocStringAsHTML doc)
  = (λ line, "<BR>" +:+ times "&nbsp;" (_LeadingWhiteSpaceCount line)
             +:+ line) <$> splitlines doc.
Proof.
  unfold _PrintDocStringAsHTML.
  rewrite splitlines_join.
  - apply list_fmap_ext. intros _ line _. apply html_line_shape.
  - apply Forall_fmap.
    eapply Forall_impl; [apply splitlines_one_line|].
    intros line Hl.
    change (one_line (html_line line) = true ∧ html_line line ≠ EmptyString).
    rewrite html_line_shape. split; [|done].
    rewrite !one_line_app, one_line_times, Hl; done.
Qed.

End html.

(** ** The archive link *)

Section archive.

Import Archive.

Lemma prepare_shape (image_dir : string) (image_exists : bool)
    (link : option node) :
  ended (_PrepareToServeUpdatesOnly image_dir image_exists link) = Return () →
  image_exists = true
  ∧ archive (_PrepareToServeUpdatesOnly image_dir image_exists link)
    = Some (Symlink image_dir).
Proof.
  unfold _PrepareToServeUpdatesOnly.
  destruct image_exists; simpl; [|done].
  destruct link as [[target|]|]; simpl; [|done|done].
  case_decide as Ht; simpl; [done|].
  by subst.
Qed.

(** X14.  [_PrepareToServeUpdatesOnly] returns exactly when the image
    directory exists and [static/archive] is a link or is not there; then
    [static/archive] is a link to the image directory, and a link that
    pointed there before is not touched.  When it raises, nothing has been
    changed on disk. *)
Theorem prepare_links_archive (image_dir : string) (image_exists : bool)
    (link : option node) :
  let p := _PrepareToServeUpdatesOnly image_dir image_exists link in
  (ended p = Return () ↔ image_exists = true ∧ link ≠ Some NoLink)
  ∧ (ended p = Return () → archive p = Some (Symlink image_dir))
  ∧ (∀ e, ended p = Raise e → archive p = link ∧ calls p = [])
  ∧ (link = Some (Symlink image_dir) → calls p = [])
  ∧ (calls p = [] ∨ archive p ≠ link).
Proof.
  unfold _PrepareToServeUpdatesOnly.
  destruct image_exists, link as [[target|]|]; simpl;
    try case_decide; simpl; subst; split_and!;
    try (split; [intros ?|intros [? ?]]); intros; simplify_eq;
    try done; try (by split); try (by left); try (by right; intros ?; simplify_eq).
Qed.

(** X15.  Once [_PrepareToServeUpdatesOnly] has returned, calling it again
    for the same image directory makes no call that changes the disk, and
    returns. *)
Theorem prepare_again_changes_nothing (image_dir : string)
    (image_exists : bool) (link : option node) :
  let p := _PrepareToServeUpdatesOnly image_dir image_exists link in
  ended p = Return () →
  let q := _PrepareToServeUpdatesOnly image_dir image_exists (archive p) in
  calls q = [] ∧ archive q = archive p ∧ ended q = Return ().
Proof.
  intros p Hp.
  destruct (prepare_shape image_dir image_exists link) as [Hex Harch];
    [done|].
  fold p in Harch. rewrite Harch, Hex.
  unfold _PrepareToServeUpdatesOnly. simpl.
  by rewrite decide_False by (by intros ?).
Qed.

Lemma prepare_again_changes_nothing_witness :
  let p := _PrepareToServeUpdatesOnly "/builds/R17" true
             (Some (Symlink "/builds/R16")) in
  calls p = [unlink; symlink "/builds/R17"]
  ∧ calls (_PrepareToServeUpdatesOnly "/builds/R17" true (archive p)) = [].
Proof.
  split; [reflexivity|].
  apply (prepare_again_changes_nothing "/builds/R17" true
           (Some (Symlink "/builds/R16"))).
  reflexivity.
Defined.

End archive.

(** ** The [__main__] block *)

Section main_block.

Import Cache Archive Main Examples Inputs.

Implicit Types (o : options) (w : world).

Lemma serve_archive_prepares o w static_dir :
  Forall preparation (serve_archive o w static_dir).1
  ∧ ∀ sd so, (serve_archive o w static_dir).2 = Return (sd, so) →
      so = truthy (archive_dir o).
Proof.
  unfold serve_archive.
  unfold mbind, prog_bind, emits, lift, mret, prog_ret.
  destruct (truthy (archive_dir o)); simpl.
  2:{ split; [constructor|]. by intros ?? [= _ <-]. }
  assert (∀ l, Forall preparation ((of_action <$> l) ++ [])) as Hprep.
  { intros l. rewrite app_nil_r. apply Forall_fmap, Forall_forall.
    by intros [?|?] _. }
  destruct (ended _) as [[]|e]; simpl; (split; [apply Hprep|]).
  - by intros ?? [= _ <-].
  - done.
Qed.

(** The calls on the updater, and how they end a validation. *)
Lemma factory_or_pregenerate_calls o w :
  Forall updater_call (factory_or_pregenerate o w).1
  ∧ (validate_factory_config o = true →
     if truthy (factory_config o) then
       ImportFactoryConfigFile (default EmptyString (factory_config o)) true
         ∈ (factory_or_pregenerate o w).1
       ∧ (factory_or_pregenerate o w).2
         = match import_factory_config w (negb (exit o)) with
           | Return _ => Raise (SystemExit 0)
           | Raise e => Raise e
           end
     else
       parser_error "You need a factory_config to validate."
         ∈ (factory_or_pregenerate o w).1
       ∧ (factory_or_pregenerate o w).2 = Raise (SystemExit 2)).
Proof.
  unfold factory_or_pregenerate.
  unfold mbind, prog_bind, emit, lift, when, error, sys_exit, mret, prog_ret.
  destruct (truthy (factory_config o)), (validate_factory_config o); simpl.
  - destruct (import_factory_config w _) as [[]|e]; simpl;
      (split; [by repeat constructor|]); intros _; (split; [by left|done]).
  - destruct (import_factory_config w _) as [[]|e]; simpl;
      (split; [by repeat constructor|done]).
  - split; [by repeat constructor|]. intros _. split; [by left|done].
  - destruct (pregenerate_update o); simpl; [|by split].
    destruct (pregenerate w _) as [[]|e]; simpl;
      (split; [by repeat constructor|done]).
Qed.

(** The last step: nothing with [--exit], the server on a port that is a
    number, a [ValueError] on any other. *)
Lemma last_step_cases o w :
  last_step o w
  = if exit o then ([], Return ())
    else match port o with
         | None => ([quickstart 8080], Return ())
         | Some text =>
             match int w text with
             | Some n => ([quickstart n], Return ())
             | None => ([], Raise (Foreign "ValueError"))
             end
         end.
Proof.
  unfold last_step, _GetConfig, when.
  unfold mbind, prog_bind, emit, lift, mret, prog_ret.
  destruct (exit o); simpl; [done|].
  destruct (port o) as [text|]; [|done].
  by destruct (int w text).
Qed.

Lemma last_step_serves o w :
  Forall is_quickstart (last_step o w).1
  ∧ ((last_step o w).1 ≠ [] ↔ exit o = false ∧ (last_step o w).2 = Return ())
  ∧ ((last_step o w).2 = Return () ∨ ∃ e, (last_step o w).2 = Raise e).
Proof.
  rewrite last_step_cases.
  destruct (exit o); simpl.
  { split; [constructor|]. split; [|by left]. split; [done|by intros [? _]]. }
  destruct (port o) as [text|]; [destruct (int w text)|]; simpl;
    (split; [by repeat constructor|]);
    (split; [split; [done|by intros [_ ?]]|]); eauto.
Qed.

(** The block, step by step. *)
Lemma main_eq o w :
  let sd0 := realpath w (data_dir o +:+ "/static") in
  let sa := serve_archive o w sd0 in
  main o w =
  if truthy (log_dir o) && negb (isdir w (default EmptyString (log_dir o)))
  then ([mkdir_p sd0;
         parser_error
           (default EmptyString (log_dir o)
            +:+ " is not a valid dir, provide a valid dir to --log-dir")],
        Raise (SystemExit 2))
  else
    match sa.2 with
    | Raise e => (mkdir_p sd0 :: sa.1, Raise e)
    | Return (sd, so) =>
        let cache_dir := os_path_join sd "cache" in
        let setup := cache_setup (machine_at w cache_dir) cache_dir
                       (clear_cache o) in
        let pre := mkdir_p sd0 :: sa.1
                   ++ cherrypy_log ("Using cache directory " +:+ cache_dir)
                   :: (on_cache <$> effects setup) in
        match result setup with
        | Raise e => (pre, Raise e)
        | Return _ =>
            let fact := factory_or_pregenerate o w in
            let said :=
              (if bool_decide (client_prefix_deprecated o = EmptyString)
               then []
               else [cherrypy_log
                       ("The --client_prefix argument is DEPRECATED, "
                        +:+ "and is no longer needed.")])
              ++ [cherrypy_log ("Data dir is " +:+ data_dir o);
                  cherrypy_log ("Source root is "
                                +:+ realpath w (devserver_dir w +:+ "/../.."));
                  cherrypy_log ("Serving from " +:+ sd)] in
            (pre ++ said ++ Autoupdate sd so (negb (exit o)) :: fact.1
               ++ match fact.2 with
                  | Return _ => (last_step o w).1
                  | Raise _ => []
                  end,
             match fact.2 with
             | Return _ => (last_step o w).2
             | Raise e => Raise e
             end)
        end
    end.
Proof.
  intros sd0 sa. unfold main. fold sd0. fold sa.
  unfold mbind, prog_bind, emit, emits, lift, when, error, mret, prog_ret.
  destruct (truthy (log_dir o) && negb (isdir w _)); [done|]. simpl.
  destruct sa as [t1 [[sd so]|e]]; [|done]. simpl.
  destruct (cache_setup _ _ _) as [effs c [[]|e]]; simpl;
    [|by rewrite app_nil_r].
  destruct (last_step o w) as [t3 r3].
  destruct (bool_decide (client_prefix_deprecated o = EmptyString)); simpl;
    destruct (factory_or_pregenerate o w) as [t2 [[]|e]]; simpl;
    rewrite <- ?app_assoc; simpl; rewrite <- ?app_assoc; simpl;
    rewrite ?app_nil_r; reflexivity.
Qed.

Lemma served_from o w static_dir sd so :
  (serve_archive o w static_dir).2 = Return (sd, so) →
  sd = if truthy (archive_dir o)
       then realpath w
              (if isabs (default EmptyString (archive_dir o))
               then default EmptyString (archive_dir o)
               else realpath w
                      (os_path_join (devserver_dir w)
                         (default EmptyString (archive_dir o))))
       else static_dir.
Proof.
  unfold serve_archive.
  unfold mbind, prog_bind, emits, lift, mret, prog_ret.
  destruct (truthy (archive_dir o)); simpl; [|by intros [= <- _]].
  destruct (ended _) as [[]|e]; simpl; [|done]. by intros [= <- _].
Qed.

Lemma not_in_preparation (l : list effect) (e : effect) :
  Forall preparation l → preparation e = false → e ∉ l.
Proof.
  intros Hl He Hin. apply (proj1 (Forall_forall _ _) Hl) in Hin.
  by rewrite He in Hin.
Qed.

Lemma not_in_updater_calls (l : list effect) (e : effect) :
  Forall updater_call l → updater_call e = false → e ∉ l.
Proof.
  intros Hl He Hin. apply (proj1 (Forall_forall _ _) Hl) in Hin.
  by rewrite He in Hin.
Qed.

Lemma not_in_quickstarts (l : list effect) (e : effect) :
  Forall is_quickstart l → is_quickstart e = false → e ∉ l.
Proof.
  intros Hl He Hin. apply (proj1 (Forall_forall _ _) Hl) in Hin.
  by rewrite He in Hin.
Qed.

Lemma preparation_serves_not (l : list effect) :
  Forall preparation l → ¬ Exists is_quickstart l.
Proof.
  intros Hl (e & He & Hq)%Exists_exists.
  apply (proj1 (Forall_forall _ _) Hl) in He. by destruct e.
Qed.

Lemma updater_calls_serve_not (l : list effect) :
  Forall updater_call l → ¬ Exists is_quickstart l.
Proof.
  intros Hl (e & He & Hq)%Exists_exists.
  apply (proj1 (Forall_forall _ _) Hl) in He. by destruct e.
Qed.

Lemma said_preparation (b : bool) (m a b' c : string) :
  Forall preparation
    ((if b then [] else [cherrypy_log m])
     ++ [cherrypy_log a; cherrypy_log b'; cherrypy_log c]).
Proof. destruct b; by repeat constructor. Qed.

(** Where in a run the updater is made and the server can be started. *)
Lemma main_trace o w :
  ∃ pre tail,
    (main o w).1 = pre ++ tail
    ∧ Forall preparation pre
    ∧ (tail = [] ∧ (∃ e, (main o w).2 = Raise e)
       ∨ ∃ sd so,
           (serve_archive o w (realpath w (data_dir o +:+ "/static"))).2
           = Return (sd, so)
           ∧ result (cache_setup (machine_at w (os_path_join sd "cache"))
                       (os_path_join sd "cache") (clear_cache o))
             = Return ()
           ∧ tail = Autoupdate sd so (negb (exit o))
                    :: (factory_or_pregenerate o w).1
                    ++ match (factory_or_pregenerate o w).2 with
                       | Return _ => (last_step o w).1
                       | Raise _ => []
                       end
           ∧ (main o w).2 = match (factory_or_pregenerate o w).2 with
                            | Return _ => (last_step o w).2
                            | Raise e => Raise e
                            end).
Proof.
  rewrite main_eq. cbn zeta.
  set (sd0 := realpath w (data_dir o +:+ "/static")).
  destruct (serve_archive_prepares o w sd0) as [Hsa _].
  destruct (truthy (log_dir o) && negb (isdir w _)).
  { eexists _, []. rewrite app_nil_r. split; [done|].
    split; [by repeat constructor|]. left. split; [done|by eexists]. }
  destruct ((serve_archive o w sd0).2) as [[sd so]|e] eqn:Hsd.
  2:{ eexists _, []. rewrite app_nil_r. split; [done|].
      split; [by constructor|]. left. split; [done|by eexists]. }
  assert (∀ effs, Forall preparation
            (mkdir_p sd0 :: (serve_archive o w sd0).1
             ++ cherrypy_log ("Using cache directory "
                              +:+ os_path_join sd "cache")
             :: (on_cache <$> effs))) as Hpre.
  { intros effs. constructor; [done|]. apply Forall_app. split; [done|].
    constructor; [done|]. by apply Forall_fmap, Forall_true. }
  destruct (result (cache_setup _ _ _)) as [[]|e] eqn:Hres.
  2:{ eexists _, []. rewrite app_nil_r. split; [done|].
      split; [apply Hpre|]. left. split; [done|by eexists]. }
  match goal with
  | |- ∃ pre tail, (?p ++ ?said ++ ?t, _).1 = _ ∧ _ =>
      exists (p ++ said), t
  end.
  split; [simpl; by rewrite app_assoc|].
  split; [apply Forall_app; split; [apply Hpre|apply said_preparation]|].
  right. by exists sd, so.
Qed.

(** What comes after the updater is made. *)
Lemma main_tail o w :
  let fact := factory_or_pregenerate o w in
  let tail := fact.1 ++ match fact.2 with
                        | Return _ => (last_step o w).1
                        | Raise _ => []
                        end in
  (∀ e, e ∈ tail → updater_call e ∨ is_quickstart e)
  ∧ (Exists is_quickstart tail
     ↔ exit o = false
       ∧ match fact.2 with
         | Return _ => (last_step o w).2
         | Raise e => Raise e
         end = Return ()).
Proof.
  intros fact tail.
  destruct (factory_or_pregenerate_calls o w) as [Hfact _]. fold fact in Hfact.
  destruct (last_step_serves o w) as (Hlast & Hstart & _).
  subst tail. split.
  - intros e [He|He]%elem_of_app.
    + left. by apply (proj1 (Forall_forall _ _) Hfact).
    + right. destruct (fact.2); [|by apply elem_of_nil in He].
      by apply (proj1 (Forall_forall _ _) Hlast).
  - rewrite Exists_app. split.
    + intros [H|H]; [by apply updater_calls_serve_not in H|].
      destruct (fact.2) as [[]|e]; [|by apply Exists_nil in H].
      apply Hstart. intros Hnil. rewrite Hnil in H. by apply Exists_nil in H.
    + intros [Hexit Hret]. right.
      destruct (fact.2) as [[]|e]; [|done].
      destruct ((last_step o w).1) as [|q l] eqn:Hl.
      * by destruct (proj2 Hstart (conj Hexit Hret)).
      * apply Forall_cons in Hlast as [Hq _]. by left.
Qed.

(** X16.  With [--validate_factory_config] the server is never started and
    the block does not get to its end.  A run that gets as far as making the
    updater stops right after it: without a factory configuration in
    [parser.error], which exits with 2; with one, after
    [ImportFactoryConfigFile], in [sys.exit(0)] when that call returns and
    in its exception when it raises. *)
Theorem validate_factory_config_never_serves o w :
  validate_factory_config o = true →
  ¬ serves (main o w)
  ∧ (∃ e, (main o w).2 = Raise e)
  ∧ ∀ sd so copy, Autoupdate sd so copy ∈ (main o w).1 →
      if truthy (factory_config o) then
        ImportFactoryConfigFile (default EmptyString (factory_config o)) true
          ∈ (main o w).1
        ∧ (main o w).2 = match import_factory_config w (negb (exit o)) with
                         | Return _ => Raise (SystemExit 0)
                         | Raise e => Raise e
                         end
      else
        parser_error "You need a factory_config to validate." ∈ (main o w).1
        ∧ (main o w).2 = Raise (SystemExit 2).
Proof.
  intros Hval. unfold serves.
  destruct (main_trace o w) as (pre & tail & -> & Hpre & Htail).
  destruct Htail as [[-> He]|(sd' & so' & _ & _ & -> & Hres)].
  { rewrite app_nil_r. split; [by apply preparation_serves_not|].
    split; [done|]. intros sd so copy Hin.
    by apply (not_in_preparation pre (Autoupdate sd so copy) Hpre eq_refl)
      in Hin. }
  destruct (factory_or_pregenerate_calls o w) as [_ Hfact].
  specialize (Hfact Hval).
  destruct (main_tail o w) as [_ Hserves]. cbn zeta in Hserves.
  assert (∃ e, (factory_or_pregenerate o w).2 = Raise e) as [e He].
  { destruct (truthy (factory_config o)); destruct Hfact as [_ ->];
      [destruct (import_factory_config w _)|]; by eexists. }
  split; [|split].
  - rewrite Exists_app, Exists_cons.
    intros [H|[H|H]]; [by apply preparation_serves_not in H|by simpl in H|].
    apply Hserves in H as [_ H]. by rewrite He in H.
  - rewrite Hres, He. by eexists.
  - intros _ _ _ _. rewrite Hres.
    destruct (truthy (factory_config o)); destruct Hfact as [Hin Hend];
      rewrite Hend;
      (split; [apply elem_of_app; right; right; apply elem_of_app; by left|]);
      try destruct (import_factory_config w _) as [[]|?]; done.
Qed.

(** Without a factory configuration, and with one that is read. *)
Lemma validate_factory_config_never_serves_witness :
  (main (validating plain_options) quiet_world).2 = Raise (SystemExit 2)
  ∧ (main (validating (with_factory_config "/srv/factory.conf" plain_options))
       quiet_world).2 = Raise (SystemExit 0).
Proof.
  split.
  - destruct (validate_factory_config_never_serves (validating plain_options)
                quiet_world eq_refl) as (_ & _ & H).
    apply (H "/srv/dev/static" false true).
    apply (bool_decide_unpack _). vm_compute. exact I.
  - destruct (validate_factory_config_never_serves
                (validating (with_factory_config "/srv/factory.conf"
                               plain_options))
                quiet_world eq_refl) as (_ & _ & H).
    apply (H "/srv/dev/static" false true).
    apply (bool_decide_unpack _). vm_compute. exact I.
Defined.

(** X17.  The server is started in exactly the runs without [--exit] that
    get to the end of the block; [--clear_cache] does not end a run, and a
    [--port] that is not a number ends it before the server is started. *)
Theorem serves_iff_block_ends o w :
  (serves (main o w) ↔ exit o = false ∧ (main o w).2 = Return ())
  ∧ (serves (main o w) →
     ∃ n, quickstart n ∈ (main o w).1
          ∧ match port o with
            | None => n = 8080%Z
            | Some text => int w text = Some n
            end).
Proof.
  unfold serves.
  destruct (main_trace o w) as (pre & tail & -> & Hpre & Htail).
  destruct Htail as [[-> [e He]]|(sd & so & _ & _ & -> & Hres)].
  { rewrite app_nil_r, He.
    split; [split; [|by intros [_ ?]]|];
      by intros H%preparation_serves_not. }
  destruct (main_tail o w) as [_ Hserves]. cbn zeta in Hserves.
  assert (Exists is_quickstart
            (pre ++ Autoupdate sd so (negb (exit o))
                    :: (factory_or_pregenerate o w).1
                    ++ match (factory_or_pregenerate o w).2 with
                       | Return _ => (last_step o w).1
                       | Raise _ => []
                       end)
          ↔ exit o = false ∧ (main o w).2 = Return ()) as Hiff.
  { rewrite Hres, Exists_app, Exists_cons, Hserves.
    split; [|by auto].
    intros [H|[H|H]]; [by apply preparation_serves_not in H|by simpl in H|done]. }
  split; [done|].
  intros [Hexit Hret]%Hiff. rewrite Hres in Hret.
  destruct ((factory_or_pregenerate o w).2) as [[]|e]; [|done].
  rewrite last_step_cases, Hexit in Hret |- *.
  destruct (port o) as [text|]; [destruct (int w text) as [n|]; [|done]|].
  - exists n. split; [|done].
    apply elem_of_app. right. right. apply elem_of_app. right. by left.
  - exists 8080%Z. split; [|done].
    apply elem_of_app. right. right. apply elem_of_app. right. by left.
Qed.

Lemma serves_iff_block_ends_witness :
  serves (main (clearing plain_options) quiet_world)
  ∧ ¬ serves (main (with_port "http" plain_options) quiet_world).
Proof.
  split.
  - apply (serves_iff_block_ends (clearing plain_options) quiet_world).
    split; reflexivity.
  - intros H.
    apply (serves_iff_block_ends (with_port "http" plain_options) quiet_world)
      in H as [_ H].
    vm_compute in H. discriminate.
Defined.

(** X18.  The updater is made at most over a cache that has passed the
    clean-up: when [Autoupdate] is made for a directory, that directory is the
    archive directory if one was given and [data_dir/static] if not, the
    clean-up of its [cache] directory has come to a good end, and
    [serve_only] and [copy_to_static_root] are as the options say. *)
Theorem updater_made_over_cleaned_cache o w sd so copy :
  Autoupdate sd so copy ∈ (main o w).1 →
  (serve_archive o w (realpath w (data_dir o +:+ "/static"))).2
  = Return (sd, so)
  ∧ result (cache_setup (machine_at w (os_path_join sd "cache"))
              (os_path_join sd "cache") (clear_cache o))
    = Return ()
  ∧ so = truthy (archive_dir o)
  ∧ copy = negb (exit o)
  ∧ (archive_dir o = None → sd = realpath w (data_dir o +:+ "/static")).
Proof.
  destruct (main_trace o w) as (pre & tail & -> & Hpre & Htail).
  intros [Hin|Hin]%elem_of_app.
  { by apply (not_in_preparation pre (Autoupdate sd so copy) Hpre eq_refl) in Hin. }
  destruct Htail as [[-> _]|(sd' & so' & Hsa & Hres & -> & _)].
  { by apply elem_of_nil in Hin. }
  assert (Autoupdate sd so copy = Autoupdate sd' so' (negb (exit o))) as Heq.
  { apply elem_of_cons in Hin as [?|Hin]; [done|].
    destruct (main_tail o w) as [Htail _].
    by destruct (Htail _ Hin). }
  injection Heq as -> -> ->.
  split; [done|]. split; [done|].
  split; [by eapply serve_archive_prepares|].
  split; [done|].
  intros Hno. apply served_from in Hsa. by rewrite Hno in Hsa.
Qed.

Lemma updater_made_over_cleaned_cache_witness :
  result (cache_setup (machine_at quiet_world "/srv/dev/static/cache")
            "/srv/dev/static/cache" false)
  = Return ().
Proof.
  apply (updater_made_over_cleaned_cache plain_options quiet_world
           "/srv/dev/static" false true).
  apply (bool_decide_unpack _). vm_compute. exact I.
Defined.

Lemma copy_on_preparation (l : list effect) :
  Forall preparation l → copy_on <$> l = l.
Proof.
  induction 1 as [|e l He _ IH]; [done|].
  rewrite fmap_cons, IH. by destruct e.
Qed.

Lemma copy_on_updater_calls (l : list effect) :
  Forall updater_call l → copy_on <$> l = l.
Proof.
  induction 1 as [|e l He _ IH]; [done|].
  rewrite fmap_cons, IH. by destruct e.
Qed.

(** The calls on an updater that does not mind [copy_to_static_root]. *)
Lemma factory_or_pregenerate_exit o w (b : bool) :
  import_factory_config w true = import_factory_config w false →
  pregenerate w true = pregenerate w false →
  factory_or_pregenerate (with_exit b o) w
  = factory_or_pregenerate (with_exit true o) w.
Proof.
  intros Himp Hgen. unfold factory_or_pregenerate.
  change (exit (with_exit b o)) with b.
  change (exit (with_exit true o)) with true.
  destruct b; [done|]. cbn [negb]. by rewrite Himp, Hgen.
Qed.

(** X19.  On an updater whose two calls end the same whatever
    [copy_to_static_root] it was made with, [--exit] changes two things
    only: [copy_to_static_root] is off when the updater is made, and the
    last step is left out.  The run without [--exit] does what the run with
    it does and then, if that one got to its end, starts the server on the
    port, or stops in the [ValueError] of a port that is not a number. *)
Theorem exit_only_skips_the_server o w :
  import_factory_config w true = import_factory_config w false →
  pregenerate w true = pregenerate w false →
  let leaving := main (with_exit true o) w in
  let staying := main (with_exit false o) w in
  staying
  = match leaving.2, (_GetConfig o w).2 with
    | Return _, Return n =>
        ((copy_on <$> leaving.1) ++ [quickstart n], Return ())
    | Return _, Raise e => (copy_on <$> leaving.1, Raise e)
    | Raise e, _ => (copy_on <$> leaving.1, Raise e)
    end.
Proof.
  intros Himp Hgen. cbn zeta. rewrite !main_eq. cbn zeta.
  rewrite (factory_or_pregenerate_exit o w false Himp Hgen).
  assert (last_step (with_exit true o) w = ([], Return ())) as ->
    by (by rewrite last_step_cases).
  assert (last_step (with_exit false o) w
          = match (_GetConfig o w).2 with
            | Return n => ([quickstart n], Return ())
            | Raise e => ([], Raise e)
            end) as ->.
  { rewrite last_step_cases. unfold _GetConfig.
    change (exit (with_exit false o)) with false.
    change (port (with_exit false o)) with (port o).
    destruct (port o) as [text|]; [|done]. by destruct (int w text). }
  change (log_dir (with_exit _ o)) with (log_dir o).
  change (data_dir (with_exit _ o)) with (data_dir o).
  change (clear_cache (with_exit _ o)) with (clear_cache o).
  change (client_prefix_deprecated (with_exit _ o))
    with (client_prefix_deprecated o).
  change (exit (with_exit true o)) with true.
  change (exit (with_exit false o)) with false.
  set (sd0 := realpath w (data_dir o +:+ "/static")).
  change (serve_archive (with_exit true o) w sd0)
    with (serve_archive o w sd0).
  change (serve_archive (with_exit false o) w sd0)
    with (serve_archive o w sd0).
  set (fact := factory_or_pregenerate (with_exit true o) w).
  destruct (serve_archive_prepares o w sd0) as [Hsa _].
  destruct (factory_or_pregenerate_calls (with_exit true o) w) as [Hfact _].
  fold fact in Hfact.
  destruct (truthy (log_dir o) && negb (isdir w _)); [done|].
  destruct ((serve_archive o w sd0).2) as [[sd so]|e]; cbn [fst snd].
  2:{ rewrite copy_on_preparation; [done|]. by constructor. }
  set (setup := cache_setup _ _ _).
  assert (Forall preparation
            (mkdir_p sd0 :: (serve_archive o w sd0).1
             ++ cherrypy_log ("Using cache directory "
                              +:+ os_path_join sd "cache")
             :: (on_cache <$> effects setup))) as Hpre.
  { constructor; [done|]. apply Forall_app. split; [done|].
    constructor; [done|]. by apply Forall_fmap, Forall_true. }
  destruct (result setup) as [[]|e]; cbn [fst snd].
  2:{ by rewrite copy_on_preparation. }
  set (pre := mkdir_p sd0 :: _) in *.
  set (said := _ ++ [_; _; _]).
  assert (Forall preparation said) as Hsaid by apply said_preparation.
  clearbody pre said.
  assert (∀ b, copy_on <$> (pre ++ said ++ Autoupdate sd so b
                             :: fact.1 ++ [])
               = pre ++ said ++ Autoupdate sd so true :: fact.1) as Hrun.
  { intros b. rewrite app_nil_r, !fmap_app, fmap_cons.
    by rewrite (copy_on_preparation pre), (copy_on_preparation said),
      (copy_on_updater_calls _ Hfact). }
  destruct (fact.2) as [[]|?]; cbn [negb]; rewrite Hrun.
  - destruct ((_GetConfig o w).2) as [n|e]; cbn [fst snd].
    + f_equal. rewrite <- !app_assoc. do 2 f_equal.
    + by rewrite app_nil_r.
  - by rewrite app_nil_r.
Qed.

(** With the default port, and with one that is not a number. *)
Lemma exit_only_skips_the_server_witness :
  main (with_exit false plain_options) quiet_world
  = ((copy_on <$> (main (with_exit true plain_options) quiet_world).1)
       ++ [quickstart 8080], Return ())
  ∧ main (with_exit false (with_port "http" plain_options)) quiet_world
    = (copy_on <$> (main (with_exit true (with_port "http" plain_options))
                      quiet_world).1,
       Raise (Foreign "ValueError")).
Proof.
  split.
  - apply (exit_only_skips_the_server plain_options quiet_world);
      reflexivity.
  - apply (exit_only_skips_the_server (with_port "http" plain_options)
             quiet_world); reflexivity.
Defined.

End main_block.
